(** * Canonical sales dashboard: the filtering and aggregation engine

    A shallow embedding of [Canonical.py].  A pandas [DataFrame] is a list
    of rows in index order, a [Series] is the list of one column's values,
    a boolean mask is a list of booleans of the same length.

    The table is read at three levels.  In the first, every label is a
    present string and numeric columns hold exact rationals ([Q]); a cell
    that pandas reads as NaN (an absent optional value) is [None], and
    equality of numbers is [Qeq].  This level carries the properties of
    filtering, counting and the shape of the roll-ups.  In the second
    ([AsRead]), the cells are what the file reader stores: a label cell
    can be missing or a whole number, and the value column holds 64-bit
    integers or floating point numbers; this level carries the properties
    that compare sums.  In the third ([Store]), the values of a run are
    objects that names point to; it carries the property that the loaded
    table is never edited. *)

From Stdlib Require Import List Bool String Ascii Arith ZArith QArith Lia Lqa.
From Stdlib Require Import Permutation Sorted Morphisms.
From Stdlib Require PrimFloat.
Import ListNotations.

Open Scope string_scope.
Open Scope Q_scope.

(** ** The deal table *)

Record Deal := mkDeal {
  Sales_Quarter : string;
  Region : string;
  Deal_Stage : string;
  Deal_Value_USD : Q;
  Product_Category : string;
  Lead_Source : string;
  Salesperson_ID : string;
  Time_to_Close_Days : option Q;
  Customer_Satisfaction_Score : option Q;
  Engagement_Score : option Q
}.

Definition DataFrame := list Deal.

(** ** Series and mask primitives *)

Module Series.

(** [s.isin(values)]: one boolean per cell. *)
Definition isin (s : list string) (values : list string) : list bool :=
  map (fun v => existsb (String.eqb v) values) s.

(** [s == value]. *)
Definition equals (s : list string) (value : string) : list bool :=
  map (fun v => String.eqb v value) s.

(** [m1 & m2] on two masks over the same index. *)
Fixpoint mask_and (m1 m2 : list bool) : list bool :=
  match m1, m2 with
  | b1 :: t1, b2 :: t2 => (b1 && b2)%bool :: mask_and t1 t2
  | _, _ => []
  end.

(** [~m]. *)
Definition invert (m : list bool) : list bool := map negb m.

(** [s.sum()] of a column without missing cells; [0] on no rows. *)
Definition sum (s : list Q) : Q := fold_left Qplus s 0.

(** The [skipna] reductions: a missing cell adds nothing to the running
    sum, and only the cells that are present are counted. *)
Definition nansum (s : list (option Q)) : Q :=
  fold_left (fun acc c => match c with Some v => acc + v | None => acc end) s 0.

Definition count (s : list (option Q)) : nat :=
  fold_left (fun n c => match c with Some _ => S n | None => n end) s O.

(** [s.mean()]: the running sum over the count, NaN when the count is 0. *)
Definition mean (s : list (option Q)) : option Q :=
  match count s with
  | O => None
  | S _ as n => Some (nansum s / inject_Z (Z.of_nat n))
  end.

(** [s.dropna()]. *)
Fixpoint dropna (s : list (option Q)) : list Q :=
  match s with
  | [] => []
  | Some v :: t => v :: dropna t
  | None :: t => dropna t
  end.

End Series.

(** [df[mask]]: the rows whose mask cell is [True], in their order. *)
Fixpoint boolean_index {A : Type} (df : list A) (mask : list bool) : list A :=
  match df, mask with
  | r :: df', b :: mask' =>
      if b then r :: boolean_index df' mask' else boolean_index df' mask'
  | _, _ => []
  end.

(** [df.shape[0]]. *)
Definition shape0 {A : Type} (df : list A) : nat := List.length df.

(** [df.head(n)]. *)
Definition head {A : Type} (n : nat) (df : list A) : list A := firstn n df.

(** ** Filters (lines 32-35 and 75) *)

Definition data_filtered (data : DataFrame)
    (selected_quarters selected_regions : list string) : DataFrame :=
  boolean_index data
    (Series.mask_and (Series.isin (map Sales_Quarter data) selected_quarters)
                     (Series.isin (map Region data) selected_regions)).

Definition region_filtered_data (data_filtered : DataFrame)
    (selected_deal_stages : list string) : DataFrame :=
  boolean_index data_filtered
    (Series.isin (map Deal_Stage data_filtered) selected_deal_stages).

(** ** Key metrics (lines 44-52, 64-66) *)

Definition Closed_Won : string := "Closed-Won".
Definition Closed_Lost : string := "Closed-Lost".

Definition total_pipeline_value (df : DataFrame) : Q :=
  Series.sum (map Deal_Value_USD
    (boolean_index df
       (Series.invert (Series.isin (map Deal_Stage df) [Closed_Won; Closed_Lost])))).

Definition total_closed_won (df : DataFrame) : Q :=
  Series.sum (map Deal_Value_USD
    (boolean_index df (Series.equals (map Deal_Stage df) Closed_Won))).

Definition total_closed_lost (df : DataFrame) : Q :=
  Series.sum (map Deal_Value_USD
    (boolean_index df (Series.equals (map Deal_Stage df) Closed_Lost))).

Definition closed_won (df : DataFrame) : nat :=
  shape0 (boolean_index df (Series.equals (map Deal_Stage df) Closed_Won)).

Definition total_deals (df : DataFrame) : nat := shape0 df.

Definition of_nat (n : nat) : Q := inject_Z (Z.of_nat n).

Definition win_rate (df : DataFrame) : Q :=
  if Nat.ltb 0 (total_deals df)
  then (of_nat (closed_won df) / of_nat (total_deals df)) * 100
  else 0.

Definition avg_time_to_close (df : DataFrame) : option Q :=
  Series.mean (map Time_to_Close_Days df).

Definition avg_csat (df : DataFrame) : option Q :=
  Series.mean (map Customer_Satisfaction_Score df).

Definition avg_engagement (df : DataFrame) : option Q :=
  Series.mean (map Engagement_Score df).

(** What a metric widget shows for a mean: the number, or the text N/A
    when [pd.isna] holds of it. *)
Inductive MetricValue :=
| NotAvailable
| Formatted (v : Q).

Definition mean_metric (avg : option Q) : MetricValue :=
  match avg with
  | Some v => Formatted v
  | None => NotAvailable
  end.

(** ** Group-by (sorted group keys, rows kept in their order) *)

(** Group keys: labels that can be compared for equality and ordered. *)
Class Label (K : Type) := {
  label_eqb : K -> K -> bool;
  label_leb : K -> K -> bool;
  label_eqb_eq : forall a b, label_eqb a b = true <-> a = b
}.

#[export] Instance string_Label : Label string := {
  label_eqb := String.eqb;
  label_leb := String.leb;
  label_eqb_eq := String.eqb_eq
}.

Definition pair_eqb {A B : Type} `{Label A} `{Label B} (x y : A * B) : bool :=
  (label_eqb (fst x) (fst y) && label_eqb (snd x) (snd y))%bool.

(** Keys of a two-column group-by are ordered column by column. *)
Definition pair_leb {A B : Type} `{Label A} `{Label B} (x y : A * B) : bool :=
  if label_eqb (fst x) (fst y) then label_leb (snd x) (snd y)
  else label_leb (fst x) (fst y).

Lemma pair_eqb_eq {A B : Type} `{Label A} `{Label B} (x y : A * B) :
  pair_eqb x y = true <-> x = y.
Proof.
  destruct x as [a b], y as [c d]; unfold pair_eqb; simpl.
  rewrite andb_true_iff, !label_eqb_eq.
  split; [intros [-> ->]; reflexivity | intros E; inversion E; auto].
Qed.

#[export] Instance pair_Label {A B : Type} `{Label A} `{Label B} : Label (A * B) := {
  label_eqb := pair_eqb;
  label_leb := pair_leb;
  label_eqb_eq := pair_eqb_eq
}.

Section GroupBy.
Context {K : Type} `{Label K}.

(** [s.unique()]: the distinct values, in order of first appearance. *)
Fixpoint unique (s : list K) : list K :=
  match s with
  | [] => []
  | v :: t => v :: filter (fun w => negb (label_eqb w v)) (unique t)
  end.

Fixpoint insert_key (k : K) (ks : list K) : list K :=
  match ks with
  | [] => [k]
  | h :: t => if label_leb k h then k :: h :: t else h :: insert_key k t
  end.

(** [groupby] runs with [sort=True]: the group keys come out ordered. *)
Definition sort_keys (ks : list K) : list K := fold_right insert_key [] ks.

Definition group_keys (key : Deal -> K) (df : DataFrame) : list K :=
  sort_keys (unique (map key df)).

Definition get_group (key : Deal -> K) (df : DataFrame) (k : K) : DataFrame :=
  filter (fun r => label_eqb (key r) k) df.

(** [df.groupby(cols)]: one group per distinct key, each with its rows. *)
Definition groupby (key : Deal -> K) (df : DataFrame) : list (K * DataFrame) :=
  map (fun k => (k, get_group key df k)) (group_keys key df).

(** [...['Deal_Value_USD'].sum().reset_index()]: key columns and the sum. *)
Definition agg_sum (groups : list (K * DataFrame)) : list (K * Q) :=
  map (fun g => (fst g, Series.sum (map Deal_Value_USD (snd g)))) groups.

(** [...['Deal_Value_USD'].mean().reset_index()]. *)
Definition agg_mean (groups : list (K * DataFrame)) : list (K * option Q) :=
  map (fun g => (fst g, Series.mean (map Some (map Deal_Value_USD (snd g))))) groups.

Definition key_among (key : Deal -> K) (ks : list K) (r : Deal) : bool :=
  existsb (label_eqb (key r)) ks.

End GroupBy.

(** ** Sorting a frame by a numeric column *)

(** The sorting algorithm behind [sort_values] ([kind]).  The source leaves
    it at the library default, which promises an ordered rearrangement of
    the rows and nothing about rows with equal keys. *)
Class SortKind := {
  sort_by : forall {A : Type}, (A -> Q) -> list A -> list A;
  sort_by_perm : forall (A : Type) (by_ : A -> Q) (l : list A),
    Permutation (sort_by by_ l) l;
  sort_by_sorted : forall (A : Type) (by_ : A -> Q) (l : list A),
    StronglySorted (fun a b => by_ a <= by_ b) (sort_by by_ l)
}.

(** [df.sort_values(by=..., ascending=...)]: a descending sort reverses the
    rows, sorts them in ascending order and reverses the outcome. *)
Definition sort_values `{SortKind} {A : Type} (by_ : A -> Q) (ascending : bool)
    (df : list A) : list A :=
  if ascending then sort_by by_ df else rev (sort_by by_ (rev df)).

(** ** A stable sorting algorithm

    An insertion sort that orders rows by a numeric key and keeps rows
    with equal keys in their order, as the library's merge sort does. *)

Section InsertionSorts.
Context {A : Type} (by_ : A -> Q).

Fixpoint insert_before_ties (x : A) (l : list A) : list A :=
  match l with
  | [] => [x]
  | h :: t =>
      if Qle_bool (by_ x) (by_ h) then x :: h :: t
      else h :: insert_before_ties x t
  end.

Definition stable_sort (l : list A) : list A :=
  fold_right insert_before_ties [] l.

Definition ascending : list A -> Prop :=
  StronglySorted (fun a b => by_ a <= by_ b).

End InsertionSorts.

(** ** Roll-ups (lines 78, 103-109, 116-117, 128, 140) *)

Definition region_category_revenue (region_filtered_data : DataFrame)
    : list ((string * string) * Q) :=
  agg_sum (groupby (fun r => (Region r, Product_Category r)) region_filtered_data).

Record LeaderRow := mkLeaderRow {
  lb_Salesperson_ID : string;
  lb_Region : string;
  Total_Closed_Won : Q;
  Average_Deal_Value : option Q
}.

(** The named aggregation of the leaderboard, after [reset_index]. *)
Definition leaderboard_groups (df : DataFrame) : list LeaderRow :=
  map (fun g => mkLeaderRow (fst (fst g)) (snd (fst g))
                  (Series.sum (map Deal_Value_USD (snd g)))
                  (Series.mean (map Some (map Deal_Value_USD (snd g)))))
      (groupby (fun r => (Salesperson_ID r, Region r))
         (boolean_index df (Series.equals (map Deal_Stage df) Closed_Won))).

Definition leaderboard `{SortKind} (df : DataFrame) : list LeaderRow :=
  head 10 (sort_values Total_Closed_Won false (leaderboard_groups df)).

Definition category_revenue_closed_won (df : DataFrame) : DataFrame :=
  boolean_index df (Series.equals (map Deal_Stage df) Closed_Won).

Definition category_revenue (category_revenue_closed_won : DataFrame)
    : list (string * Q) :=
  agg_sum (groupby Product_Category category_revenue_closed_won).

Definition category_avg_deal (df : DataFrame) : list (string * option Q) :=
  agg_mean (groupby Product_Category df).

Definition lead_source_data (df : DataFrame) : list ((string * string) * Q) :=
  agg_sum (groupby (fun r => (Lead_Source r, Deal_Stage r)) df).

(** ** The script as a sequence of assignments

    Every top-level assignment of the script, in source order, as a step
    on an environment of named values.  A rerun starts from the cached
    table and the current widget choices. *)

Module Session.

Inductive Var :=
| data | sales_quarters | selected_quarters | regions | selected_regions
| data_filtered
| total_pipeline_value | total_closed_won | total_closed_lost
| closed_won | total_deals | win_rate
| avg_time_to_close | avg_csat | avg_engagement
| deal_stages | selected_deal_stages | region_filtered_data
| region_category_revenue
| leaderboard
| category_revenue_closed_won | category_revenue | category_avg_deal
| lead_source_data.

Definition Var_eq_dec (x y : Var) : {x = y} + {x <> y}.
Proof. decide equality. Defined.

Inductive Value :=
| VFrame (df : DataFrame)
| VLabels (l : list string)
| VNum (q : Q)
| VCount (n : nat)
| VMean (m : option Q)
| VBy2 (t : list ((string * string) * Q))
| VBy1 (t : list (string * Q))
| VBy1Mean (t : list (string * option Q))
| VLeaders (t : list LeaderRow).

Definition Env := Var -> option Value.

Definition empty : Env := fun _ => None.

Definition update (env : Env) (x : Var) (v : Value) : Env :=
  fun y => if Var_eq_dec y x then Some v else env y.

(** Reading a name: [None] when it is unbound or bound to another shape. *)
Definition frame (env : Env) (x : Var) : option DataFrame :=
  match env x with Some (VFrame d) => Some d | _ => None end.

Definition labels (env : Env) (x : Var) : option (list string) :=
  match env x with Some (VLabels l) => Some l | _ => None end.

Definition number (env : Env) (x : Var) : option nat :=
  match env x with Some (VCount n) => Some n | _ => None end.

Definition bind {A B : Type} (m : option A) (k : A -> option B) : option B :=
  match m with Some a => k a | None => None end.

Notation "x <- m ;; k" := (bind m (fun x => k))
  (at level 61, m at next level, right associativity).

(** The widget state: what the user picked in each multiselect, or
    nothing yet. *)
Record Widgets := mkWidgets {
  quarter_choice : option (list string);
  region_choice : option (list string);
  deal_stage_choice : option (list string)
}.

(** [st.multiselect(label, options, default)]. *)
Definition multiselect (options default : list string)
    (choice : option (list string)) : list string :=
  match choice with Some picked => picked | None => default end.

Definition Expr := Env -> option Value.

Section Script.
Context `{SortKind}.
Variable w : Widgets.

Definition script : list (Var * Expr) := [
  (sales_quarters, fun env =>
     d <- frame env data ;; Some (VLabels (unique (map Sales_Quarter d))));
  (selected_quarters, fun env =>
     o <- labels env sales_quarters ;;
     Some (VLabels (multiselect o o (quarter_choice w))));
  (regions, fun env =>
     d <- frame env data ;; Some (VLabels (unique (map Region d))));
  (selected_regions, fun env =>
     o <- labels env regions ;;
     Some (VLabels (multiselect o o (region_choice w))));
  (data_filtered, fun env =>
     d <- frame env data ;;
     q <- labels env selected_quarters ;;
     r <- labels env selected_regions ;;
     Some (VFrame (boolean_index d
       (Series.mask_and (Series.isin (map Sales_Quarter d) q)
                        (Series.isin (map Region d) r)))));
  (total_pipeline_value, fun env =>
     f <- frame env data_filtered ;;
     Some (VNum (Series.sum (map Deal_Value_USD (boolean_index f
       (Series.invert (Series.isin (map Deal_Stage f) [Closed_Won; Closed_Lost])))))));
  (total_closed_won, fun env =>
     f <- frame env data_filtered ;;
     Some (VNum (Series.sum (map Deal_Value_USD
       (boolean_index f (Series.equals (map Deal_Stage f) Closed_Won))))));
  (total_closed_lost, fun env =>
     f <- frame env data_filtered ;;
     Some (VNum (Series.sum (map Deal_Value_USD
       (boolean_index f (Series.equals (map Deal_Stage f) Closed_Lost))))));
  (closed_won, fun env =>
     f <- frame env data_filtered ;;
     Some (VCount (shape0
       (boolean_index f (Series.equals (map Deal_Stage f) Closed_Won)))));
  (total_deals, fun env =>
     f <- frame env data_filtered ;; Some (VCount (shape0 f)));
  (win_rate, fun env =>
     cw <- number env closed_won ;;
     td <- number env total_deals ;;
     Some (VNum (if Nat.ltb 0 td then (of_nat cw / of_nat td) * 100 else 0)));
  (avg_time_to_close, fun env =>
     f <- frame env data_filtered ;;
     Some (VMean (Series.mean (map Time_to_Close_Days f))));
  (avg_csat, fun env =>
     f <- frame env data_filtered ;;
     Some (VMean (Series.mean (map Customer_Satisfaction_Score f))));
  (avg_engagement, fun env =>
     f <- frame env data_filtered ;;
     Some (VMean (Series.mean (map Engagement_Score f))));
  (deal_stages, fun env =>
     d <- frame env data ;; Some (VLabels (unique (map Deal_Stage d))));
  (selected_deal_stages, fun env =>
     o <- labels env deal_stages ;;
     Some (VLabels (multiselect o o (deal_stage_choice w))));
  (region_filtered_data, fun env =>
     f <- frame env data_filtered ;;
     s <- labels env selected_deal_stages ;;
     Some (VFrame (boolean_index f (Series.isin (map Deal_Stage f) s))));
  (region_category_revenue, fun env =>
     f <- frame env region_filtered_data ;;
     Some (VBy2 (agg_sum (groupby (fun r => (Region r, Product_Category r)) f))));
  (leaderboard, fun env =>
     f <- frame env data_filtered ;;
     Some (VLeaders (head 10 (sort_values Total_Closed_Won false
       (leaderboard_groups f)))));
  (category_revenue_closed_won, fun env =>
     f <- frame env data_filtered ;;
     Some (VFrame (boolean_index f (Series.equals (map Deal_Stage f) Closed_Won))));
  (category_revenue, fun env =>
     f <- frame env category_revenue_closed_won ;;
     Some (VBy1 (agg_sum (groupby Product_Category f))));
  (category_avg_deal, fun env =>
     f <- frame env data_filtered ;;
     Some (VBy1Mean (agg_mean (groupby Product_Category f))));
  (lead_source_data, fun env =>
     f <- frame env data_filtered ;;
     Some (VBy2 (agg_sum (groupby (fun r => (Lead_Source r, Deal_Stage r)) f))))
].

End Script.

(** Running assignments in order; an unbound name stops the run. *)
Fixpoint exec (stmts : list (Var * Expr)) (env : Env) : option Env :=
  match stmts with
  | [] => Some env
  | (x, e) :: rest =>
      match e env with
      | Some v => exec rest (update env x v)
      | None => None
      end
  end.

Definition assigned (stmts : list (Var * Expr)) : list Var := map fst stmts.

(** [load_data] under [st.cache_data]: the file is read on the first call
    and the cached table is handed out afterwards. *)
Definition load_data (csv : DataFrame) (cache : option DataFrame)
    : DataFrame * option DataFrame :=
  match cache with
  | Some d => (d, cache)
  | None => (csv, Some csv)
  end.

(** One run of the script: [data = load_data()], then the assignments. *)
Definition rerun `{SortKind} (csv : DataFrame) (cache : option DataFrame)
    (w : Widgets) : option Env * option DataFrame :=
  let (d, cache') := load_data csv cache in
  (exec (script w) (update empty data (VFrame d)), cache').

(** A session: one run per interaction, the cache carried along. *)
Fixpoint session `{SortKind} (csv : DataFrame) (cache : option DataFrame)
    (ws : list Widgets) : list (option Env) :=
  match ws with
  | [] => []
  | w :: ws' =>
      let (out, cache') := rerun csv cache w in
      out :: session csv cache' ws'
  end.

End Session.

(** ** Vocabulary of the properties *)

(** The selection predicate in the words of the filter contract. *)
Definition selected (values : list string) (v : string) : bool :=
  if in_dec string_dec v values then true else false.

(** The sum of [Deal_Value_USD] over the rows that satisfy [P], in the
    words of the metric formulas. *)
Fixpoint sum_over (P : Deal -> bool) (df : DataFrame) : Q :=
  match df with
  | [] => 0
  | r :: t => if P r then Deal_Value_USD r + sum_over P t else sum_over P t
  end.

(** The number of rows that satisfy [P]. *)
Fixpoint count_over (P : Deal -> bool) (df : DataFrame) : nat :=
  match df with
  | [] => O
  | r :: t => if P r then S (count_over P t) else count_over P t
  end.

Definition is_stage (stage : string) (r : Deal) : bool :=
  String.eqb (Deal_Stage r) stage.

Definition is_open (r : Deal) : bool :=
  negb (is_stage Closed_Won r || is_stage Closed_Lost r).

(** The arithmetic mean of the values that are present. *)
Definition mean_of (vs : list Q) : Q :=
  fold_right Qplus 0 vs / of_nat (List.length vs).

(** What it means for [avg] to be the mean of column [col]: the mean of
    the values that are present, and not available exactly when there is
    none. *)
Definition mean_of_present (avg : DataFrame -> option Q)
    (col : Deal -> option Q) (df : DataFrame) : Prop :=
  (Series.dropna (map col df) <> [] ->
     exists m, avg df = Some m /\ m == mean_of (Series.dropna (map col df)))
  /\ (avg df = None <-> Series.dropna (map col df) = [])
  /\ (mean_metric (avg df) = NotAvailable <->
      forall r, In r df -> col r = None).

Definition leader_key (g : LeaderRow) : string * string :=
  (lb_Salesperson_ID g, lb_Region g).

(** ** A small table *)

Definition example_data : DataFrame := [
  mkDeal "Q1-FY25" "EU" "Closed-Won" 100 "Kubernetes" "Web" "SP01"
    (Some 30) (Some 4) None;
  mkDeal "Q1-FY25" "EU" "Negotiation" 50 "Ubuntu OS" "Referral" "SP02"
    None None (Some 7);
  mkDeal "Q2-FY25" "US" "Closed-Lost" 30 "Kubernetes" "Web" "SP01"
    (Some 12) None None;
  mkDeal "Q2-FY25" "US" "Closed-Won" 100 "Hardware" "Event" "SP03"
    (Some 20) (Some 5) (Some 9)
].

(** ** Runs of the script *)

(** The environment a run starts from: only [data] is bound. *)
Definition loaded (d : DataFrame) : Session.Env :=
  Session.update Session.empty Session.data (Session.VFrame d).

(** The selections a run works with, and its filtered view. *)
Definition quarters_in_use (d : DataFrame) (w : Session.Widgets) : list string :=
  Session.multiselect (unique (map Sales_Quarter d)) (unique (map Sales_Quarter d))
    (Session.quarter_choice w).

Definition regions_in_use (d : DataFrame) (w : Session.Widgets) : list string :=
  Session.multiselect (unique (map Region d)) (unique (map Region d))
    (Session.region_choice w).

Definition stages_in_use (d : DataFrame) (w : Session.Widgets) : list string :=
  Session.multiselect (unique (map Deal_Stage d)) (unique (map Deal_Stage d))
    (Session.deal_stage_choice w).

Definition view_in_use (d : DataFrame) (w : Session.Widgets) : DataFrame :=
  data_filtered d (quarters_in_use d w) (regions_in_use d w).

(** The names whose value may depend on the deal-stage selection. *)
Definition stage_dependent : list Session.Var :=
  [Session.selected_deal_stages; Session.region_filtered_data;
   Session.region_category_revenue].

(** ** The pulled slice of the pie chart (line 124) *)

(** Scanning for the largest value: the position kept is the first one
    that holds it. *)
Fixpoint idxmax_scan (s : list Q) (i best_i : nat) (best : Q) : nat :=
  match s with
  | [] => best_i
  | x :: t =>
      if Qle_bool x best then idxmax_scan t (S i) best_i best
      else idxmax_scan t (S i) i x
  end.

(** [s.idxmax()] under a fresh range index: the position of the first
    largest value; on no rows it raises, which is [None] here. *)
Definition idxmax (s : list Q) : option nat :=
  match s with
  | [] => None
  | x :: t => Some (idxmax_scan t 1 0 x)
  end.

(** The list comprehension [[0.1 if i == s.idxmax() else 0 for i in ...]]:
    [idxmax] is evaluated once for every index, so not at all when there
    is none. *)
Fixpoint pull_from (s : list Q) (indices : list nat) : option (list Q) :=
  match indices with
  | [] => Some []
  | i :: rest =>
      match idxmax s with
      | None => None
      | Some m =>
          match pull_from s rest with
          | None => None
          | Some tl => Some ((if Nat.eqb i m then 1 # 10 else 0) :: tl)
          end
      end
  end.

Definition pull (category_revenue : list (string * Q)) : option (list Q) :=
  pull_from (map snd category_revenue) (seq 0 (List.length category_revenue)).

(** ** Ordered group keys *)

(** The comparison of a label type is a total order. *)
Class LabelOrder (K : Type) `{Label K} := {
  label_leb_total : forall a b : K, label_leb a b = true \/ label_leb b a = true;
  label_leb_trans : forall a b c : K,
    label_leb a b = true -> label_leb b c = true -> label_leb a c = true;
  label_leb_antisym : forall a b : K,
    label_leb a b = true -> label_leb b a = true -> a = b
}.

(** Keys stand in strictly ascending order. *)
Definition keys_ascending {K : Type} `{Label K} (ks : list K) : Prop :=
  StronglySorted (fun a b => label_leb a b = true /\ a <> b) ks.

(** * The table as the file reader stores it

    The definitions above read a table with every label present and with
    exact numbers.  This part keeps what the reader does to the cells: a
    label cell that is empty or holds a marker such as NA is missing; a
    label column of digits holds whole numbers, any other holds text; the
    value column holds 64-bit integers when every cell is a whole number
    and 64-bit floating point numbers otherwise, a missing value cell being
    NaN.  Sums are taken in the arithmetic of the value column. *)

Module AsRead.
Import PrimFloat.
Set Warnings "-inexact-float".

(** What a label cell holds when it is present. *)
Inductive Cell :=
| Text (s : string)
| Num (z : Z).

(** The columns that the totals and the roll-ups read. *)
Record Row (V : Type) := mkRow {
  Sales_Quarter : option Cell;
  Region : option Cell;
  Deal_Stage : option Cell;
  Deal_Value_USD : V;
  Product_Category : option Cell;
  Lead_Source : option Cell;
  Salesperson_ID : option Cell
}.

Arguments mkRow {V}.
Arguments Sales_Quarter {V}.
Arguments Region {V}.
Arguments Deal_Stage {V}.
Arguments Deal_Value_USD {V}.
Arguments Product_Category {V}.
Arguments Lead_Source {V}.
Arguments Salesperson_ID {V}.

Definition Frame (V : Type) := list (Row V).

(** ** The arithmetic of a value column *)

Class Number (V : Type) := {
  num_zero : V;
  num_add : V -> V -> V;
  num_isna : V -> bool
}.

(** The signed 64-bit integer with the same residue modulo 2^64. *)
Definition wrap (z : Z) : Z := ((z + 2 ^ 63) mod 2 ^ 64 - 2 ^ 63)%Z.

(** Integer columns: addition wraps around, no cell is missing. *)
#[global] Instance int64 : Number Z := {
  num_zero := 0%Z;
  num_add := fun a b => wrap (a + b);
  num_isna := fun _ => false
}.

(** Floating point columns: binary64 addition, NaN is the missing cell. *)
#[global] Instance float64 : Number float := {
  num_zero := 0%float;
  num_add := PrimFloat.add;
  num_isna := PrimFloat.is_nan
}.

(** [s.sum()]: the cells that are present, added up in row order from zero
    in the arithmetic of the column. *)
Definition sum {V : Type} `{Number V} (s : list V) : V :=
  fold_left (fun acc v => if num_isna v then acc else num_add acc v) s num_zero.

(** ** Comparing a label column with text *)

(** A cell equals a text only when it holds that text: a missing cell and
    a number equal none. *)
Definition is_text (value : string) (c : option Cell) : bool :=
  match c with
  | Some (Text t) => String.eqb t value
  | _ => false
  end.

(** [s == value]. *)
Definition equals (s : list (option Cell)) (value : string) : list bool :=
  map (is_text value) s.

(** [s.isin(values)]. *)
Definition isin (s : list (option Cell)) (values : list string) : list bool :=
  map (fun c => existsb (fun v => is_text v c) values) s.

(** ** Value totals (lines 44-46) *)

Section Totals.
Context {V : Type} `{Number V}.

Definition total_pipeline_value (df : Frame V) : V :=
  sum (map Deal_Value_USD
    (boolean_index df
       (Series.invert (isin (map Deal_Stage df) [Closed_Won; Closed_Lost])))).

Definition total_closed_won (df : Frame V) : V :=
  sum (map Deal_Value_USD
    (boolean_index df (equals (map Deal_Stage df) Closed_Won))).

Definition total_closed_lost (df : Frame V) : V :=
  sum (map Deal_Value_USD
    (boolean_index df (equals (map Deal_Stage df) Closed_Lost))).

End Totals.

(** ** Group keys *)

Definition cell_eqb (a b : Cell) : bool :=
  match a, b with
  | Text s, Text t => String.eqb s t
  | Num x, Num y => Z.eqb x y
  | _, _ => false
  end.

(** Numbers are ordered by size and texts as strings.  A column holds
    cells of one kind, so the mixed cases do not arise in an ordering. *)
Definition cell_leb (a b : Cell) : bool :=
  match a, b with
  | Text s, Text t => String.leb s t
  | Num x, Num y => Z.leb x y
  | Num _, Text _ => true
  | Text _, Num _ => false
  end.

Lemma cell_eqb_eq (a b : Cell) : cell_eqb a b = true <-> a = b.
Proof.
  destruct a as [s | x], b as [t | y]; simpl;
    try (split; [discriminate | intros E; discriminate E]).
  - rewrite String.eqb_eq. split; [now intros -> | now intros [= ->]].
  - rewrite Z.eqb_eq. split; [now intros -> | now intros [= ->]].
Qed.

#[global] Instance Cell_Label : Label Cell := {
  label_eqb := cell_eqb;
  label_leb := cell_leb;
  label_eqb_eq := cell_eqb_eq
}.

(** The key of a row in a two-column group-by: missing as soon as one of
    the two cells is. *)
Definition both (a b : option Cell) : option (Cell * Cell) :=
  match a, b with
  | Some x, Some y => Some (x, y)
  | _, _ => None
  end.

(** ** Group-by, which leaves out the rows with a missing key *)

Section GroupBy.
Context {V K : Type} `{Label K}.

Fixpoint present (s : list (option K)) : list K :=
  match s with
  | [] => []
  | Some k :: t => k :: present t
  | None :: t => present t
  end.

Definition group_keys (key : Row V -> option K) (df : Frame V) : list K :=
  sort_keys (unique (present (map key df))).

Definition has_key (k : K) (o : option K) : bool :=
  match o with
  | Some k' => label_eqb k' k
  | None => false
  end.

Definition get_group (key : Row V -> option K) (df : Frame V) (k : K) : Frame V :=
  filter (fun r => has_key k (key r)) df.

(** [df.groupby(cols)]: one group per key that occurs, in key order. *)
Definition groupby (key : Row V -> option K) (df : Frame V) : list (K * Frame V) :=
  map (fun k => (k, get_group key df k)) (group_keys key df).

(** [...['Deal_Value_USD'].sum().reset_index()]. *)
Definition agg_sum `{Number V} (groups : list (K * Frame V)) : list (K * V) :=
  map (fun g => (fst g, sum (map Deal_Value_USD (snd g)))) groups.

End GroupBy.

(** ** Roll-ups that sum (lines 78, 103-107, 116-117, 140) *)

Section RollUps.
Context {V : Type} `{Number V}.

Definition region_category_revenue (region_filtered_data : Frame V)
    : list ((Cell * Cell) * V) :=
  agg_sum (groupby (fun r => both (Region r) (Product_Category r))
             region_filtered_data).

(** The key columns and the [Total_Closed_Won] column of the leaderboard's
    aggregation, before it is sorted. *)
Definition leaderboard_totals (df : Frame V) : list ((Cell * Cell) * V) :=
  agg_sum (groupby (fun r => both (Salesperson_ID r) (Region r))
             (boolean_index df (equals (map Deal_Stage df) Closed_Won))).

Definition category_revenue_closed_won (df : Frame V) : Frame V :=
  boolean_index df (equals (map Deal_Stage df) Closed_Won).

Definition category_revenue (category_revenue_closed_won : Frame V)
    : list (Cell * V) :=
  agg_sum (groupby Product_Category category_revenue_closed_won).

Definition lead_source_data (df : Frame V) : list ((Cell * Cell) * V) :=
  agg_sum (groupby (fun r => both (Lead_Source r) (Deal_Stage r)) df).

End RollUps.

(** ** Vocabulary of the properties *)

Definition in_int64 (z : Z) : Prop := (- 2 ^ 63 <= z < 2 ^ 63)%Z.

(** The exact sum of [Deal_Value_USD] over the rows that satisfy [P]. *)
Fixpoint sum_where (P : Row Z -> bool) (df : Frame Z) : Z :=
  match df with
  | [] => 0%Z
  | r :: t => if P r then (Deal_Value_USD r + sum_where P t)%Z else sum_where P t
  end.

Definition exact_sum (s : list Z) : Z := fold_right Z.add 0%Z s.

Definition stage_is {V : Type} (stage : string) (r : Row V) : bool :=
  is_text stage (Deal_Stage r).

Definition is_open {V : Type} (r : Row V) : bool :=
  negb (stage_is Closed_Won r || stage_is Closed_Lost r).

Definition keyed {V K : Type} (key : Row V -> option K) (r : Row V) : bool :=
  match key r with Some _ => true | None => false end.

Definition in_group {V K : Type} `{Label K} (key : Row V -> option K) (k : K)
    (r : Row V) : bool :=
  has_key k (key r).

(** A sum roll-up of an integer column against the rows it was made from:
    each row of the roll-up carries the wrapped sum over the rows with its
    key; the totals and the sum over the rows that have a key agree modulo
    2^64, and are equal when no sum leaves the 64-bit range. *)
Definition rollup_adds_up {K : Type} `{Label K} (key : Row Z -> option K)
    (population : Frame Z) (rollup : list (K * Z)) : Prop :=
  Forall (fun row => snd row = wrap (sum_where (in_group key (fst row)) population))
    rollup
  /\ ((exact_sum (map snd rollup)
       - sum (map Deal_Value_USD (filter (keyed key) population))) mod 2 ^ 64 = 0)%Z
  /\ (Forall (fun row => in_int64 (sum_where (in_group key (fst row)) population))
        rollup ->
      in_int64 (sum_where (keyed key) population) ->
      exact_sum (map snd rollup)
      = sum (map Deal_Value_USD (filter (keyed key) population))).

(** ** Small tables *)

Definition deal {V : Type} (region stage : string) (value : V) (category : string)
    : Row V :=
  mkRow (Some (Text "Q1-FY25")) (Some (Text region)) (Some (Text stage)) value
    (Some (Text category)) (Some (Text "Web")) (Some (Text "SP01")).

(** Two deals of 2^62 each, one won and one open or both won. *)
Definition two_large_won : Frame Z :=
  [deal "EU" "Closed-Won" (2 ^ 62)%Z "Kubernetes";
   deal "EU" "Closed-Won" (2 ^ 62)%Z "Kubernetes"].

Definition large_won_and_open : Frame Z :=
  [deal "EU" "Closed-Won" (2 ^ 62)%Z "Kubernetes";
   deal "EU" "Negotiation" (2 ^ 62)%Z "Kubernetes"].

(** Three deals with fractional values. *)
Definition fractional : Frame float :=
  [deal "EU" "Closed-Won" 0.1%float "Kubernetes";
   deal "EU" "Negotiation" 0.4%float "Kubernetes";
   deal "EU" "Closed-Won" 0.1%float "Kubernetes"].

(** A deal whose region cell is missing. *)
Definition region_missing : Frame Z :=
  [deal "EU" "Closed-Won" 20%Z "Kubernetes";
   mkRow (Some (Text "Q1-FY25")) None (Some (Text "Closed-Won")) 40%Z
     (Some (Text "Kubernetes")) (Some (Text "Web")) (Some (Text "SP01"))].

End AsRead.

(** * Objects and names

    The values of a run are objects in a heap and the names of the script
    are bound to their locations, so that two names can stand for one
    object and an object can be edited in place.  The language has the
    ways in which Python code can touch an object: an expression that
    builds a new one, handing one to a call that displays it, binding a
    second name to one, and editing one in place. *)

Module Store.

Definition Loc := nat.

Record State := mkState {
  heap : list Session.Value;
  names : Session.Var -> option Loc
}.

Definition bind_name (ns : Session.Var -> option Loc) (x : Session.Var) (l : Loc)
    : Session.Var -> option Loc :=
  fun y => if Session.Var_eq_dec y x then Some l else ns y.

(** What the names stand for in a state. *)
Definition lookup (st : State) : Session.Env :=
  fun x =>
    match names st x with
    | Some l => nth_error (heap st) l
    | None => None
    end.

(** The heap with the object at [l] replaced. *)
Fixpoint put (h : list Session.Value) (l : Loc) (v : Session.Value)
    : list Session.Value :=
  match h, l with
  | [], _ => []
  | _ :: t, O => v :: t
  | o :: t, S l' => o :: put t l' v
  end.

Inductive Cmd :=
| New (x : Session.Var) (e : Session.Expr)
| Pass (x : Session.Var)
| Alias (x y : Session.Var)
| Edit (x : Session.Var) (f : DataFrame -> DataFrame).

(** [New x e] is [x = e] for an expression that returns a new object, as
    boolean indexing, [unique], the reductions, [groupby(...).agg(...)],
    [reset_index], [sort_values] and [head] do; [Pass x] hands [x] to
    [st.dataframe] or to a chart constructor; [Alias x y] is [x = y];
    [Edit x f] is an edit in place, as a column assignment or a call with
    [inplace=True] is. *)
Definition step (c : Cmd) (st : State) : option State :=
  match c with
  | New x e =>
      match e (lookup st) with
      | Some v =>
          Some (mkState (heap st ++ [v])
                  (bind_name (names st) x (List.length (heap st))))
      | None => None
      end
  | Pass x =>
      match lookup st x with
      | Some _ => Some st
      | None => None
      end
  | Alias x y =>
      match names st y with
      | Some l => Some (mkState (heap st) (bind_name (names st) x l))
      | None => None
      end
  | Edit x f =>
      match names st x with
      | Some l =>
          match nth_error (heap st) l with
          | Some (Session.VFrame d) =>
              Some (mkState (put (heap st) l (Session.VFrame (f d))) (names st))
          | _ => None
          end
      | None => None
      end
  end.

Fixpoint run (cmds : list Cmd) (st : State) : option State :=
  match cmds with
  | [] => Some st
  | c :: rest =>
      match step c st with
      | Some st' => run rest st'
      | None => None
      end
  end.

(** The tables that the script hands to a display call right after it
    has made them (lines 39, 91, 110, 118 and 124, 129, 147). *)
Definition shown (x : Session.Var) : list Cmd :=
  match x with
  | Session.data_filtered | Session.region_category_revenue
  | Session.leaderboard | Session.category_revenue
  | Session.category_avg_deal | Session.lead_source_data => [Pass x]
  | _ => []
  end.

(** The script: every assignment builds a new object. *)
Definition script `{SortKind} (w : Session.Widgets) : list Cmd :=
  flat_map (fun s => New (fst s) (snd s) :: shown (fst s)) (Session.script w).

(** [data = load_data()]: the table is the first object. *)
Definition start (d : DataFrame) : State :=
  mkState [Session.VFrame d] (bind_name (fun _ => None) Session.data O).

Definition rerun `{SortKind} (csv : DataFrame) (cache : option DataFrame)
    (w : Session.Widgets) : option State * option DataFrame :=
  let (d, cache') := Session.load_data csv cache in
  (run (script w) (start d), cache').

Fixpoint session `{SortKind} (csv : DataFrame) (cache : option DataFrame)
    (ws : list Session.Widgets) : list (option State) :=
  match ws with
  | [] => []
  | w :: ws' =>
      let (out, cache') := rerun csv cache w in
      out :: session csv cache' ws'
  end.

(** A command that leaves every object it finds as it is and binds no new
    name to the table. *)
Definition builds_or_shows (c : Cmd) : bool :=
  match c with
  | New x _ => if Session.Var_eq_dec x Session.data then false else true
  | Pass _ => true
  | Alias _ _ => false
  | Edit _ _ => false
  end.

(** The table is still the first object, [data] is its only name, and
    every object made since stands after it. *)
Definition table_intact (d : DataFrame) (st : State) : Prop :=
  (exists made, heap st = Session.VFrame d :: made)
  /\ names st Session.data = Some O
  /\ (forall x, x <> Session.data -> names st x <> Some O)
  /\ (forall x l, names st x = Some l -> (l < List.length (heap st))%nat).

End Store.

(** An expression reads its environment through the names only. *)
Definition reads_names (e : Session.Expr) : Prop :=
  forall env env' : Session.Env, (forall x, env x = env' x) -> e env = e env'.

(** * Properties *)

(** ** Masks and boolean indexing *)

Lemma existsb_eqb_In (v : string) (values : list string) :
  existsb (String.eqb v) values = true <-> In v values.
Proof.
  rewrite existsb_exists; split.
  - intros [x [Hin Heq]]. apply String.eqb_eq in Heq. now subst.
  - intros Hin. exists v. split; [assumption | apply String.eqb_refl].
Qed.

Lemma isin_column {A : Type} (col : A -> string) (df : list A) (values : list string) :
  Series.isin (map col df) values =
  map (fun r => existsb (String.eqb (col r)) values) df.
Proof. unfold Series.isin. now rewrite map_map. Qed.

Lemma equals_column {A : Type} (col : A -> string) (df : list A) (value : string) :
  Series.equals (map col df) value = map (fun r => String.eqb (col r) value) df.
Proof. unfold Series.equals. now rewrite map_map. Qed.

Lemma mask_and_map {A : Type} (f g : A -> bool) (df : list A) :
  Series.mask_and (map f df) (map g df) = map (fun r => (f r && g r)%bool) df.
Proof. induction df as [|r df IH]; simpl; [reflexivity | now rewrite IH]. Qed.

Lemma boolean_index_map {A : Type} (f : A -> bool) (df : list A) :
  boolean_index df (map f df) = filter f df.
Proof.
  induction df as [|r df IH]; simpl; [reflexivity |].
  destruct (f r); now rewrite IH.
Qed.

Lemma selected_In (values : list string) (v : string) :
  selected values v = true <-> In v values.
Proof. unfold selected. destruct (in_dec string_dec v values); intuition congruence. Qed.

Lemma existsb_selected (values : list string) (v : string) :
  existsb (String.eqb v) values = selected values v.
Proof.
  apply eq_true_iff_eq. now rewrite existsb_eqb_In, selected_In.
Qed.

Lemma data_filtered_filter (data : DataFrame) (qs rs : list string) :
  data_filtered data qs rs =
  filter (fun r => (selected qs (Sales_Quarter r) && selected rs (Region r))%bool) data.
Proof.
  unfold data_filtered.
  rewrite !isin_column, mask_and_map, boolean_index_map.
  apply filter_ext. intros r. now rewrite !existsb_selected.
Qed.

Lemma region_filtered_data_filter (df : DataFrame) (ss : list string) :
  region_filtered_data df ss = filter (fun r => selected ss (Deal_Stage r)) df.
Proof.
  unfold region_filtered_data.
  rewrite isin_column, boolean_index_map.
  apply filter_ext. intros r. now rewrite existsb_selected.
Qed.

Lemma filter_filter {A : Type} (f g : A -> bool) (l : list A) :
  filter g (filter f l) = filter (fun x => (f x && g x)%bool) l.
Proof.
  induction l as [|x l IH]; simpl; [reflexivity |].
  destruct (f x); simpl; [destruct (g x) |]; now rewrite IH.
Qed.

Lemma filter_none {A : Type} (f : A -> bool) (l : list A) :
  (forall x, In x l -> f x = false) -> filter f l = [].
Proof.
  induction l as [|x l IH]; simpl; intros Hf; [reflexivity |].
  rewrite (Hf x (or_introl eq_refl)). apply IH. intros y Hy. apply Hf. now right.
Qed.

Lemma filter_same {A : Type} (f g : A -> bool) (l : list A) :
  (forall x, In x l -> f x = g x) -> filter f l = filter g l.
Proof.
  induction l as [|x l IH]; simpl; intros Hf; [reflexivity |].
  rewrite (Hf x (or_introl eq_refl)), IH; [reflexivity |].
  intros y Hy. apply Hf. now right.
Qed.

Lemma selected_app_unknown (values extra : list string) (v : string) :
  ~ In v extra -> selected (values ++ extra) v = selected values v.
Proof.
  intros Hv. apply eq_true_iff_eq. rewrite !selected_In, in_app_iff. tauto.
Qed.

(** C1. The two filters keep exactly the rows of the table whose quarter
    and region (and, for the stage filter, whose stage too) are among the
    selected values, in table order and with their multiplicity; an empty
    selection gives the empty view; selected values that occur nowhere in
    the table change nothing, and the filter is total. *)
Theorem filter_exact (data : DataFrame) (qs rs ss : list string) :
  data_filtered data qs rs =
    filter (fun r => (selected qs (Sales_Quarter r) && selected rs (Region r))%bool) data
  /\ region_filtered_data (data_filtered data qs rs) ss =
    filter (fun r => (selected qs (Sales_Quarter r) && selected rs (Region r)
                      && selected ss (Deal_Stage r))%bool) data
  /\ (forall r, In r (data_filtered data qs rs) <->
        In r data /\ In (Sales_Quarter r) qs /\ In (Region r) rs)
  /\ (forall r, In r (region_filtered_data (data_filtered data qs rs) ss) <->
        In r data /\ In (Sales_Quarter r) qs /\ In (Region r) rs
        /\ In (Deal_Stage r) ss)
  /\ data_filtered data [] rs = []
  /\ data_filtered data qs [] = []
  /\ region_filtered_data (data_filtered data qs rs) [] = []
  /\ (forall extra_q extra_r extra_s,
        (forall r, In r data -> ~ In (Sales_Quarter r) extra_q) ->
        (forall r, In r data -> ~ In (Region r) extra_r) ->
        (forall r, In r data -> ~ In (Deal_Stage r) extra_s) ->
        data_filtered data (qs ++ extra_q) (rs ++ extra_r) = data_filtered data qs rs
        /\ region_filtered_data (data_filtered data (qs ++ extra_q) (rs ++ extra_r))
             (ss ++ extra_s)
           = region_filtered_data (data_filtered data qs rs) ss).
Proof.
  assert (Hstage : region_filtered_data (data_filtered data qs rs) ss =
    filter (fun r => (selected qs (Sales_Quarter r) && selected rs (Region r)
                      && selected ss (Deal_Stage r))%bool) data).
  { now rewrite region_filtered_data_filter, data_filtered_filter, filter_filter. }
  split; [apply data_filtered_filter |].
  split; [exact Hstage |].
  split.
  { intros r. rewrite data_filtered_filter, filter_In, andb_true_iff, !selected_In.
    tauto. }
  split.
  { intros r. rewrite Hstage, filter_In, !andb_true_iff, !selected_In. tauto. }
  split.
  { rewrite data_filtered_filter. apply filter_none. reflexivity. }
  split.
  { rewrite data_filtered_filter. apply filter_none. intros x _.
    apply andb_false_r. }
  split.
  { rewrite region_filtered_data_filter. apply filter_none. reflexivity. }
  intros eq er es Hq Hr Hs.
  assert (Hd : data_filtered data (qs ++ eq) (rs ++ er) = data_filtered data qs rs).
  { rewrite !data_filtered_filter. apply filter_same. intros x Hx.
    rewrite !selected_app_unknown; auto. }
  split; [exact Hd |].
  rewrite Hd, !region_filtered_data_filter. apply filter_same. intros x Hx.
  apply selected_app_unknown. apply Hs.
  rewrite data_filtered_filter in Hx. apply filter_In in Hx. tauto.
Qed.

(** ** Sums, counts and means *)

Lemma fold_left_Qplus_acc (l : list Q) (a : Q) :
  fold_left Qplus l a == a + fold_left Qplus l 0.
Proof.
  revert a. induction l as [|x l IH]; intros a; simpl.
  - ring.
  - rewrite (IH (a + x)), (IH (0 + x)). ring.
Qed.

Lemma sum_cons (x : Q) (l : list Q) : Series.sum (x :: l) == x + Series.sum l.
Proof.
  unfold Series.sum. simpl. rewrite fold_left_Qplus_acc. ring.
Qed.

Lemma sum_fold_right (l : list Q) : Series.sum l == fold_right Qplus 0 l.
Proof.
  induction l as [|x l IH]; [reflexivity |].
  rewrite sum_cons, IH. reflexivity.
Qed.

Lemma length_filter_count (P : Deal -> bool) (df : DataFrame) :
  List.length (filter P df) = count_over P df.
Proof.
  induction df as [|r df IH]; simpl; [reflexivity |].
  destruct (P r); simpl; now rewrite IH.
Qed.

Lemma count_over_le (P : Deal -> bool) (df : DataFrame) :
  (count_over P df <= List.length df)%nat.
Proof.
  induction df as [|r df IH]; simpl; [lia |]. destruct (P r); lia.
Qed.

Lemma is_stage_true (stage : string) (r : Deal) :
  is_stage stage r = true <-> Deal_Stage r = stage.
Proof. unfold is_stage. apply String.eqb_eq. Qed.

Lemma closed_won_count (df : DataFrame) :
  closed_won df = count_over (is_stage Closed_Won) df.
Proof.
  unfold closed_won, shape0.
  rewrite equals_column, boolean_index_map. apply length_filter_count.
Qed.

Lemma of_nat_nonneg (n : nat) : 0 <= of_nat n.
Proof.
  unfold of_nat. replace 0 with (inject_Z 0) by reflexivity.
  rewrite <- Zle_Qle. lia.
Qed.

Lemma of_nat_pos (n : nat) : (0 < n)%nat -> 0 < of_nat n.
Proof.
  intros Hn. unfold of_nat. replace 0 with (inject_Z 0) by reflexivity.
  rewrite <- Zlt_Qlt. lia.
Qed.

Lemma of_nat_le (m n : nat) : (m <= n)%nat -> of_nat m <= of_nat n.
Proof. intros Hmn. unfold of_nat. rewrite <- Zle_Qle. lia. Qed.

Lemma ratio_bounds (c n : nat) :
  (0 < n)%nat -> (c <= n)%nat ->
  0 <= of_nat c / of_nat n * 100 /\ of_nat c / of_nat n * 100 <= 100.
Proof.
  intros Hn Hc.
  pose proof (of_nat_pos n Hn) as Hpos.
  pose proof (of_nat_nonneg c) as Hc0.
  pose proof (of_nat_le c n Hc) as Hle.
  assert (H0 : 0 <= of_nat c / of_nat n).
  { apply Qle_shift_div_l; [assumption | now rewrite Qmult_0_l]. }
  assert (H1 : of_nat c / of_nat n <= 1).
  { apply Qle_shift_div_r; [assumption | now rewrite Qmult_1_l]. }
  split; lra.
Qed.

(** C3. The win rate is 0 on the empty view; on a view with at least one
    row it is the number of Closed-Won rows over the number of all rows
    of the view, times 100; it always lies between 0 and 100. *)
Theorem win_rate_spec (df : DataFrame) (r : Deal) :
  win_rate [] == 0
  /\ win_rate (r :: df) ==
       of_nat (count_over (is_stage Closed_Won) (r :: df))
       / of_nat (List.length (r :: df)) * 100
  /\ 0 <= win_rate df <= 100.
Proof.
  split; [reflexivity |].
  split.
  - unfold win_rate, total_deals, shape0. rewrite closed_won_count.
    simpl Nat.ltb. reflexivity.
  - unfold win_rate, total_deals, shape0. rewrite closed_won_count.
    destruct (Nat.ltb 0 (List.length df)) eqn:Hlt.
    + apply Nat.ltb_lt in Hlt.
      apply ratio_bounds; [assumption | apply count_over_le].
    + split; lra.
Qed.

Lemma nansum_dropna (s : list (option Q)) (a : Q) :
  fold_left (fun acc c => match c with Some v => acc + v | None => acc end) s a
  = fold_left Qplus (Series.dropna s) a.
Proof.
  revert a. induction s as [|[v|] s IH]; intros a; simpl; auto.
Qed.

Lemma count_dropna (s : list (option Q)) (n : nat) :
  fold_left (fun n c => match c with Some _ => S n | None => n end) s n
  = (n + List.length (Series.dropna s))%nat.
Proof.
  revert n. induction s as [|[v|] s IH]; intros n; simpl.
  - lia.
  - rewrite IH. lia.
  - apply IH.
Qed.

Lemma mean_dropna (s : list (option Q)) :
  Series.mean s =
  match Series.dropna s with
  | [] => None
  | vs => Some (Series.sum vs / of_nat (List.length vs))
  end.
Proof.
  unfold Series.mean, Series.count, Series.nansum.
  rewrite count_dropna, nansum_dropna. simpl.
  destruct (Series.dropna s); reflexivity.
Qed.

Lemma dropna_nil_iff {A : Type} (col : A -> option Q) (df : list A) :
  Series.dropna (map col df) = [] <-> forall r, In r df -> col r = None.
Proof.
  induction df as [|r df IH]; simpl.
  - split; [intros _ x [] | reflexivity].
  - destruct (col r) eqn:Hr.
    + split; [discriminate |]. intros Hall.
      specialize (Hall r (or_introl eq_refl)). congruence.
    + rewrite IH. split.
      * intros Hall x [<- | Hx]; auto.
      * intros Hall x Hx. apply Hall. now right.
Qed.

Lemma series_mean_of_present (col : Deal -> option Q) (df : DataFrame) :
  mean_of_present (fun d => Series.mean (map col d)) col df.
Proof.
  unfold mean_of_present. rewrite mean_dropna, <- dropna_nil_iff.
  destruct (Series.dropna (map col df)) as [|v vs] eqn:Hd.
  - split; [intros Hne; now elim Hne |]. simpl. tauto.
  - split.
    + intros _. eexists. split; [reflexivity |].
      unfold mean_of. now rewrite sum_fold_right.
    + simpl. split; split; discriminate.
Qed.


(** ** Filtering again *)

Lemma selected_incl (small large : list string) (v : string) :
  incl small large -> selected small v = true -> selected large v = true.
Proof. rewrite !selected_In. intros Hincl Hv. now apply Hincl. Qed.

Lemma filter_absorb {A : Type} (f g : A -> bool) (l : list A) :
  (forall x, f x = true -> g x = true) -> filter g (filter f l) = filter f l.
Proof.
  intros Hfg. rewrite filter_filter. apply filter_ext. intros x.
  destruct (f x) eqn:Hf; [now rewrite (Hfg x Hf) | reflexivity].
Qed.

(** C7. Filtering a view again with selections that contain the ones it
    was made with gives the same view, for the quarter and region filter
    and for the two of them followed by the stage filter. *)
Theorem filter_idempotent (data : DataFrame) (qs rs ss qs' rs' ss' : list string) :
  incl qs qs' -> incl rs rs' -> incl ss ss' ->
  data_filtered (data_filtered data qs rs) qs' rs' = data_filtered data qs rs
  /\ region_filtered_data
       (data_filtered (region_filtered_data (data_filtered data qs rs) ss) qs' rs')
       ss'
     = region_filtered_data (data_filtered data qs rs) ss.
Proof.
  intros Hq Hr Hs.
  assert (Hqr : forall df,
    data_filtered (data_filtered df qs rs) qs' rs' = data_filtered df qs rs).
  { intros df. rewrite (data_filtered_filter (data_filtered df qs rs)).
    rewrite (data_filtered_filter df). apply filter_absorb. intros x Hx.
    apply andb_true_iff in Hx. destruct Hx as [Hx1 Hx2].
    apply andb_true_iff. split; eapply selected_incl; eassumption. }
  split; [apply Hqr |].
  rewrite !region_filtered_data_filter, !data_filtered_filter, !filter_filter.
  apply filter_ext. intros x.
  destruct (selected qs (Sales_Quarter x)) eqn:H1; simpl; [| reflexivity].
  destruct (selected rs (Region x)) eqn:H2; simpl; [| reflexivity].
  destruct (selected ss (Deal_Stage x)) eqn:H3; simpl; [| reflexivity].
  now rewrite (selected_incl _ _ _ Hq H1), (selected_incl _ _ _ Hr H2),
    (selected_incl _ _ _ Hs H3).
Qed.

(** ** Group-by: keys and group sums *)

Section GroupByFacts.
Context {K : Type} `{Label K}.

Lemma label_eqb_refl (k : K) : label_eqb k k = true.
Proof. now apply label_eqb_eq. Qed.

Lemma label_eqb_false (a b : K) : label_eqb a b = false <-> a <> b.
Proof.
  rewrite <- label_eqb_eq. destruct (label_eqb a b); intuition congruence.
Qed.

Lemma unique_In (s : list K) (k : K) : In k (unique s) <-> In k s.
Proof.
  induction s as [|v s IH]; simpl; [tauto |].
  rewrite filter_In, IH, negb_true_iff, label_eqb_false.
  destruct (label_eqb k v) eqn:E.
  - apply label_eqb_eq in E. subst. tauto.
  - apply label_eqb_false in E. intuition congruence.
Qed.

Lemma unique_NoDup (s : list K) : NoDup (unique s).
Proof.
  induction s as [|v s IH]; simpl; constructor.
  - rewrite filter_In, label_eqb_refl. simpl. intros [_ Hf]. discriminate.
  - now apply NoDup_filter.
Qed.

Lemma insert_key_perm (k : K) (ks : list K) : Permutation (insert_key k ks) (k :: ks).
Proof.
  induction ks as [|h t IH]; simpl; [reflexivity |].
  destruct (label_leb k h); [reflexivity |].
  rewrite IH. apply perm_swap.
Qed.

Lemma sort_keys_perm (ks : list K) : Permutation (sort_keys ks) ks.
Proof.
  induction ks as [|k ks IH]; simpl; [reflexivity |].
  rewrite insert_key_perm. now constructor.
Qed.

Lemma group_keys_In (key : Deal -> K) (df : DataFrame) (k : K) :
  In k (group_keys key df) <-> exists r, In r df /\ key r = k.
Proof.
  unfold group_keys. split.
  - intros Hk. apply (Permutation_in _ (sort_keys_perm _)) in Hk.
    apply unique_In, in_map_iff in Hk. destruct Hk as [r [Hr Hin]]. eauto.
  - intros [r [Hin Hr]].
    apply (Permutation_in _ (Permutation_sym (sort_keys_perm _))).
    apply unique_In, in_map_iff. eauto.
Qed.

End GroupByFacts.

(** ** The insertion sort is a sort *)

Section InsertionSortFacts.
Context {A : Type} (by_ : A -> Q).

Lemma insert_before_ties_perm (x : A) (l : list A) :
  Permutation (insert_before_ties by_ x l) (x :: l).
Proof.
  induction l as [|h t IH]; simpl; [reflexivity |].
  destruct (Qle_bool (by_ x) (by_ h)); [reflexivity |].
  rewrite IH. apply perm_swap.
Qed.

Lemma stable_sort_perm (l : list A) : Permutation (stable_sort by_ l) l.
Proof.
  induction l as [|x l IH]; simpl; [reflexivity |].
  rewrite insert_before_ties_perm. now constructor.
Qed.

Lemma Qle_bool_false (a b : Q) : Qle_bool a b = false -> b <= a.
Proof.
  intros Hf. apply Qlt_le_weak, Qnot_le_lt. intros Hle.
  apply Qle_bool_iff in Hle. congruence.
Qed.

Lemma insert_before_ties_sorted (x : A) (l : list A) :
  ascending by_ l -> ascending by_ (insert_before_ties by_ x l).
Proof.
  unfold ascending. induction 1 as [|h t Hs IH Hall]; simpl.
  - repeat constructor.
  - destruct (Qle_bool (by_ x) (by_ h)) eqn:E.
    + apply Qle_bool_iff in E. constructor; [now constructor |].
      constructor; [assumption |].
      eapply Forall_impl; [| exact Hall]. intros y Hy. simpl in Hy.
      eapply Qle_trans; eassumption.
    + apply Qle_bool_false in E. constructor; [assumption |].
      apply (Permutation_Forall (Permutation_sym (insert_before_ties_perm x t))).
      now constructor.
Qed.

Lemma stable_sort_sorted (l : list A) : ascending by_ (stable_sort by_ l).
Proof.
  induction l as [|x l IH]; simpl; [constructor |].
  now apply insert_before_ties_sorted.
Qed.

End InsertionSortFacts.

Definition stable_kind : SortKind := {|
  sort_by := @stable_sort;
  sort_by_perm := @stable_sort_perm;
  sort_by_sorted := @stable_sort_sorted
|}.

(** ** The leaderboard *)

Lemma StronglySorted_snoc {A : Type} (R : A -> A -> Prop) (l : list A) (x : A) :
  StronglySorted R l -> Forall (fun y => R y x) l -> StronglySorted R (l ++ [x]).
Proof.
  induction 1 as [|h t Hs IH Hall]; intros Hx; simpl.
  - repeat constructor.
  - inversion Hx as [|? ? Hh Ht]; subst. constructor; [now apply IH |].
    apply Forall_app. split; [assumption | now constructor].
Qed.

Lemma StronglySorted_rev {A : Type} (R : A -> A -> Prop) (l : list A) :
  StronglySorted R l -> StronglySorted (fun a b => R b a) (rev l).
Proof.
  induction 1 as [|h t Hs IH Hall]; simpl; [constructor |].
  apply StronglySorted_snoc; [assumption | now apply Forall_rev].
Qed.

Section SortValues.
Context {K : SortKind}.

Lemma sort_values_perm {A : Type} (by_ : A -> Q) (asc : bool) (l : list A) :
  Permutation (sort_values by_ asc l) l.
Proof.
  unfold sort_values. destruct asc; [apply sort_by_perm |].
  rewrite <- Permutation_rev, sort_by_perm. symmetry. apply Permutation_rev.
Qed.

Lemma sort_values_descending {A : Type} (by_ : A -> Q) (l : list A) :
  StronglySorted (fun a b => by_ b <= by_ a) (sort_values by_ false l).
Proof.
  unfold sort_values.
  apply (StronglySorted_rev (fun a b => by_ a <= by_ b)), sort_by_sorted.
Qed.

End SortValues.

Lemma won_rows_filter (df : DataFrame) :
  boolean_index df (Series.equals (map Deal_Stage df) Closed_Won)
  = filter (is_stage Closed_Won) df.
Proof. now rewrite equals_column, boolean_index_map. Qed.

Lemma leaderboard_groups_keys (df : DataFrame) :
  map leader_key (leaderboard_groups df)
  = group_keys (fun r => (Salesperson_ID r, Region r))
      (filter (is_stage Closed_Won) df).
Proof.
  unfold leaderboard_groups, groupby. rewrite won_rows_filter, !map_map.
  unfold leader_key. simpl. rewrite <- (map_id (group_keys _ _)) at 2.
  apply map_ext. now intros [sp rg].
Qed.

(** ** Runs of the script *)

(** What a run binds each name to. *)
Lemma script_values (K : SortKind) (w : Session.Widgets) (d : DataFrame) :
  exists env, Session.exec (Session.script w) (loaded d) = Some env
  /\ env Session.data = Some (Session.VFrame d)
  /\ env Session.selected_quarters = Some (Session.VLabels (quarters_in_use d w))
  /\ env Session.selected_regions = Some (Session.VLabels (regions_in_use d w))
  /\ env Session.selected_deal_stages = Some (Session.VLabels (stages_in_use d w))
  /\ env Session.data_filtered = Some (Session.VFrame (view_in_use d w))
  /\ env Session.total_pipeline_value
     = Some (Session.VNum (total_pipeline_value (view_in_use d w)))
  /\ env Session.total_closed_won
     = Some (Session.VNum (total_closed_won (view_in_use d w)))
  /\ env Session.total_closed_lost
     = Some (Session.VNum (total_closed_lost (view_in_use d w)))
  /\ env Session.closed_won = Some (Session.VCount (closed_won (view_in_use d w)))
  /\ env Session.total_deals = Some (Session.VCount (total_deals (view_in_use d w)))
  /\ env Session.win_rate = Some (Session.VNum (win_rate (view_in_use d w)))
  /\ env Session.avg_time_to_close
     = Some (Session.VMean (avg_time_to_close (view_in_use d w)))
  /\ env Session.avg_csat = Some (Session.VMean (avg_csat (view_in_use d w)))
  /\ env Session.avg_engagement
     = Some (Session.VMean (avg_engagement (view_in_use d w)))
  /\ env Session.region_filtered_data
     = Some (Session.VFrame
         (region_filtered_data (view_in_use d w) (stages_in_use d w)))
  /\ env Session.region_category_revenue
     = Some (Session.VBy2 (region_category_revenue
         (region_filtered_data (view_in_use d w) (stages_in_use d w))))
  /\ env Session.leaderboard
     = Some (Session.VLeaders (@leaderboard K (view_in_use d w)))
  /\ env Session.category_revenue_closed_won
     = Some (Session.VFrame (category_revenue_closed_won (view_in_use d w)))
  /\ env Session.category_revenue
     = Some (Session.VBy1 (category_revenue
         (category_revenue_closed_won (view_in_use d w))))
  /\ env Session.category_avg_deal
     = Some (Session.VBy1Mean (category_avg_deal (view_in_use d w)))
  /\ env Session.lead_source_data
     = Some (Session.VBy2 (lead_source_data (view_in_use d w))).
Proof.
  eexists. split; [reflexivity |].
  repeat split.
Qed.

(** C10. Two runs on the same table with the same quarter and region
    choices and any two deal-stage choices both complete and bind every
    name to the same value, except the stage selection itself, the
    stage-filtered view and the region by category roll-up; in particular
    the key metrics, the leaderboard, the two category roll-ups and the
    lead-source roll-up agree.  The region by category roll-up does depend
    on the stage choice: on the small table two stage choices give two
    different roll-ups. *)
Theorem stage_choice_reaches_one_rollup (K : SortKind) (d : DataFrame)
    (q r s1 s2 : option (list string)) :
  (exists env1 env2,
     Session.exec (Session.script (Session.mkWidgets q r s1)) (loaded d) = Some env1
     /\ Session.exec (Session.script (Session.mkWidgets q r s2)) (loaded d) = Some env2
     /\ (forall x, ~ In x stage_dependent -> env1 x = env2 x)
     /\ env1 Session.leaderboard
        = Some (Session.VLeaders
            (@leaderboard K (view_in_use d (Session.mkWidgets q r s1))))
     /\ env1 Session.win_rate
        = Some (Session.VNum (win_rate (view_in_use d (Session.mkWidgets q r s1))))
     /\ env1 Session.category_revenue
        = Some (Session.VBy1 (category_revenue (category_revenue_closed_won
            (view_in_use d (Session.mkWidgets q r s1)))))
     /\ env1 Session.category_avg_deal
        = Some (Session.VBy1Mean
            (category_avg_deal (view_in_use d (Session.mkWidgets q r s1))))
     /\ env1 Session.lead_source_data
        = Some (Session.VBy2
            (lead_source_data (view_in_use d (Session.mkWidgets q r s1)))))
  /\ view_in_use d (Session.mkWidgets q r s1) = view_in_use d (Session.mkWidgets q r s2)
  /\ (exists env1 env2,
        Session.exec (Session.script (Session.mkWidgets None None None))
          (loaded example_data) = Some env1
        /\ Session.exec
             (Session.script (Session.mkWidgets None None (Some [Closed_Lost])))
             (loaded example_data) = Some env2
        /\ env1 Session.region_category_revenue
           <> env2 Session.region_category_revenue).
Proof.
  split.
  { eexists. eexists. split; [reflexivity |]. split; [reflexivity |].
    split; [| repeat split].
    intros x Hx. destruct x; try reflexivity; exfalso; apply Hx; simpl; tauto. }
  split; [reflexivity |].
  destruct (script_values K (Session.mkWidgets None None None) example_data)
    as [env1 [Hrun1 Hv1]].
  destruct (script_values K (Session.mkWidgets None None (Some [Closed_Lost]))
              example_data) as [env2 [Hrun2 Hv2]].
  exists env1, env2. split; [exact Hrun1 |]. split; [exact Hrun2 |].
  destruct Hv1 as (_ & _ & _ & _ & _ & _ & _ & _ & _ & _ & _ & _ & _ & _ & _ & -> & _).
  destruct Hv2 as (_ & _ & _ & _ & _ & _ & _ & _ & _ & _ & _ & _ & _ & _ & _ & -> & _).
  vm_compute. discriminate.
Qed.

(** A use of C7 on the small table: one quarter and one region, then all
    quarters and both regions. *)
Lemma filter_idempotent_example :
  incl ["Q1-FY25"] ["Q1-FY25"; "Q2-FY25"]
  /\ incl ["EU"] ["EU"; "US"]
  /\ incl ["Closed-Won"] ["Closed-Won"; "Negotiation"]
  /\ data_filtered (data_filtered example_data ["Q1-FY25"] ["EU"])
       ["Q1-FY25"; "Q2-FY25"] ["EU"; "US"]
     = data_filtered example_data ["Q1-FY25"] ["EU"]
  /\ region_filtered_data
       (data_filtered
          (region_filtered_data (data_filtered example_data ["Q1-FY25"] ["EU"])
             ["Closed-Won"])
          ["Q1-FY25"; "Q2-FY25"] ["EU"; "US"])
       ["Closed-Won"; "Negotiation"]
     = region_filtered_data (data_filtered example_data ["Q1-FY25"] ["EU"])
         ["Closed-Won"].
Proof.
  assert (H1 : incl ["Q1-FY25"] ["Q1-FY25"; "Q2-FY25"]).
  { intros x [<- | []]. simpl. tauto. }
  assert (H2 : incl ["EU"] ["EU"; "US"]).
  { intros x [<- | []]. simpl. tauto. }
  assert (H3 : incl ["Closed-Won"] ["Closed-Won"; "Negotiation"]).
  { intros x [<- | []]. simpl. tauto. }
  split; [exact H1 |]. split; [exact H2 |]. split; [exact H3 |].
  exact (filter_idempotent example_data _ _ _ _ _ _ H1 H2 H3).
Defined.

(** The worked example of the metrics: one won, one open and one lost
    deal. *)
Example metrics_example :
  let v := [ mkDeal "Q1-FY25" "EU" "Closed-Won" 100 "Kubernetes" "Web" "SP01"
               None None None;
             mkDeal "Q1-FY25" "EU" "Negotiation" 50 "Kubernetes" "Web" "SP01"
               None None None;
             mkDeal "Q1-FY25" "US" "Closed-Lost" 30 "Kubernetes" "Web" "SP01"
               None None None ] in
  total_pipeline_value v == 50
  /\ total_closed_won v == 100
  /\ total_closed_lost v == 30
  /\ win_rate v == 100 / 3
  /\ avg_time_to_close v = None.
Proof. repeat split. Qed.

(** * Further properties of the filters *)

Lemma selected_unique (s : list string) (v : string) :
  In v s -> selected (unique s) v = true.
Proof. intros Hv. apply selected_In, unique_In. exact Hv. Qed.

Lemma filter_all {A : Type} (f : A -> bool) (l : list A) :
  (forall x, In x l -> f x = true) -> filter f l = l.
Proof.
  induction l as [|x l IH]; simpl; intros Hf; [reflexivity |].
  rewrite (Hf x (or_introl eq_refl)), IH; [reflexivity |].
  intros y Hy. apply Hf. now right.
Qed.

(** X1. With the multiselects left at their defaults (every distinct value
    of the column, taken from the whole table), the quarter and region
    filter keeps the whole table; and with the stage multiselect at its
    default the stage filter keeps the whole filtered view, whatever the
    quarter and region choices are. *)
Theorem default_selections_keep_everything (d : DataFrame)
    (q r s : option (list string)) :
  view_in_use d (Session.mkWidgets None None s) = d
  /\ region_filtered_data (view_in_use d (Session.mkWidgets q r None))
       (stages_in_use d (Session.mkWidgets q r None))
     = view_in_use d (Session.mkWidgets q r None).
Proof.
  split.
  - unfold view_in_use, quarters_in_use, regions_in_use. simpl.
    rewrite data_filtered_filter. apply filter_all. intros x Hx.
    rewrite !selected_unique; [reflexivity | |]; now apply in_map.
  - unfold stages_in_use. simpl.
    rewrite region_filtered_data_filter. apply filter_all. intros x Hx.
    apply selected_unique, in_map.
    unfold view_in_use in Hx. rewrite data_filtered_filter in Hx.
    apply filter_In in Hx. tauto.
Qed.

Lemma unique_fixed {K : Type} `{Label K} (s : list K) :
  NoDup s -> unique s = s.
Proof.
  induction 1 as [|v s Hv Hnd IH]; simpl; [reflexivity |].
  rewrite IH. f_equal. apply filter_all. intros w Hw.
  apply negb_true_iff, label_eqb_false. intros ->. contradiction.
Qed.

(** X2. The options of a multiselect hold every value of the column once:
    [unique] has no duplicates, has exactly the values of the column, keeps
    the first value first, leaves a list without duplicates as it is, and
    so is idempotent. *)
Theorem unique_options {K : Type} `{Label K} (s : list K) :
  NoDup (unique s)
  /\ (forall v, In v (unique s) <-> In v s)
  /\ (forall v t, s = v :: t -> exists t', unique s = v :: t')
  /\ (NoDup s -> unique s = s)
  /\ unique (unique s) = unique s
  /\ (List.length (unique s) <= List.length s)%nat.
Proof.
  split; [apply unique_NoDup |].
  split; [intros v; apply unique_In |].
  split; [intros v t ->; simpl; eauto |].
  split; [apply unique_fixed |].
  split; [apply unique_fixed, unique_NoDup |].
  induction s as [|v s IH]; simpl; [lia |].
  pose proof (filter_length_le (fun w => negb (label_eqb w v)) (unique s)). lia.
Qed.

Lemma selected_same_set (vs vs' : list string) (v : string) :
  (forall x, In x vs <-> In x vs') -> selected vs v = selected vs' v.
Proof.
  intros Hset. apply eq_true_iff_eq. rewrite !selected_In. apply Hset.
Qed.

(** X3. The filters read a selection as a set: two selections with the
    same values, in any order and with any repetitions, give the same
    views. *)
Theorem filter_reads_selection_as_set (data : DataFrame)
    (qs qs' rs rs' ss ss' : list string) :
  (forall v, In v qs <-> In v qs') ->
  (forall v, In v rs <-> In v rs') ->
  (forall v, In v ss <-> In v ss') ->
  data_filtered data qs rs = data_filtered data qs' rs'
  /\ region_filtered_data (data_filtered data qs rs) ss
     = region_filtered_data (data_filtered data qs' rs') ss'.
Proof.
  intros Hq Hr Hs.
  assert (Hd : data_filtered data qs rs = data_filtered data qs' rs').
  { rewrite !data_filtered_filter. apply filter_ext. intros x.
    now rewrite (selected_same_set qs qs'), (selected_same_set rs rs'). }
  split; [exact Hd |].
  rewrite Hd, !region_filtered_data_filter. apply filter_ext. intros x.
  now apply selected_same_set.
Qed.

Lemma filter_reads_selection_as_set_example :
  (forall v, In v ["Q1-FY25"; "Q2-FY25"] <-> In v ["Q2-FY25"; "Q1-FY25"; "Q2-FY25"])
  /\ (forall v, In v ["EU"] <-> In v ["EU"; "EU"])
  /\ (forall v, In v ["Closed-Won"; "Closed-Lost"] <-> In v ["Closed-Lost"; "Closed-Won"])
  /\ data_filtered example_data ["Q1-FY25"; "Q2-FY25"] ["EU"]
     = data_filtered example_data ["Q2-FY25"; "Q1-FY25"; "Q2-FY25"] ["EU"; "EU"]
  /\ region_filtered_data
       (data_filtered example_data ["Q1-FY25"; "Q2-FY25"] ["EU"])
       ["Closed-Won"; "Closed-Lost"]
     = region_filtered_data
         (data_filtered example_data ["Q2-FY25"; "Q1-FY25"; "Q2-FY25"] ["EU"; "EU"])
         ["Closed-Lost"; "Closed-Won"].
Proof.
  assert (H1 : forall v, In v ["Q1-FY25"; "Q2-FY25"]
                         <-> In v ["Q2-FY25"; "Q1-FY25"; "Q2-FY25"]).
  { intros v. simpl. tauto. }
  assert (H2 : forall v, In v ["EU"] <-> In v ["EU"; "EU"]).
  { intros v. simpl. tauto. }
  assert (H3 : forall v, In v ["Closed-Won"; "Closed-Lost"]
                         <-> In v ["Closed-Lost"; "Closed-Won"]).
  { intros v. simpl. tauto. }
  split; [exact H1 |]. split; [exact H2 |]. split; [exact H3 |].
  exact (filter_reads_selection_as_set example_data _ _ _ _ _ _ H1 H2 H3).
Defined.

(** X4. The filters commute: two quarter and region filters can be applied
    in either order, and the stage filter can be applied before or after
    the quarter and region filter. *)
Theorem filters_commute (data : DataFrame) (q1 r1 q2 r2 ss : list string) :
  data_filtered (data_filtered data q1 r1) q2 r2
  = data_filtered (data_filtered data q2 r2) q1 r1
  /\ region_filtered_data (data_filtered data q1 r1) ss
     = data_filtered (region_filtered_data data ss) q1 r1.
Proof.
  split.
  - rewrite !(data_filtered_filter (data_filtered _ _ _)), !data_filtered_filter,
      !filter_filter.
    apply filter_ext. intros x. apply andb_comm.
  - rewrite region_filtered_data_filter, (data_filtered_filter (region_filtered_data _ _)),
      data_filtered_filter, region_filtered_data_filter, !filter_filter.
    apply filter_ext. intros x. apply andb_comm.
Qed.

Lemma count_over_mono (P P' : Deal -> bool) (df : DataFrame) :
  (forall r, In r df -> P r = true -> P' r = true) ->
  (count_over P df <= count_over P' df)%nat.
Proof.
  induction df as [|r df IH]; simpl; intros Himp; [lia |].
  assert (Ht : (count_over P df <= count_over P' df)%nat).
  { apply IH. intros x Hx. apply Himp. now right. }
  destruct (P r) eqn:HP.
  - rewrite (Himp r (or_introl eq_refl) HP). lia.
  - destruct (P' r); lia.
Qed.

(** X5. Narrowing a selection: filtering the wider view with the narrower
    selections gives the narrower view, every row of the narrower view is
    a row of the wider one, and the deal counts do not grow. *)
Theorem narrowing_a_selection (data : DataFrame) (qs rs qs' rs' : list string) :
  incl qs qs' -> incl rs rs' ->
  data_filtered (data_filtered data qs' rs') qs rs = data_filtered data qs rs
  /\ (forall x, In x (data_filtered data qs rs) -> In x (data_filtered data qs' rs'))
  /\ (total_deals (data_filtered data qs rs)
      <= total_deals (data_filtered data qs' rs'))%nat
  /\ (closed_won (data_filtered data qs rs)
      <= closed_won (data_filtered data qs' rs'))%nat.
Proof.
  intros Hq Hr.
  assert (Himp : forall x,
    (selected qs (Sales_Quarter x) && selected rs (Region x))%bool = true ->
    (selected qs' (Sales_Quarter x) && selected rs' (Region x))%bool = true).
  { intros x Hx. apply andb_true_iff in Hx. destruct Hx as [H1 H2].
    apply andb_true_iff. split; eapply selected_incl; eassumption. }
  split.
  { rewrite (data_filtered_filter (data_filtered _ _ _)), !data_filtered_filter,
      filter_filter.
    apply filter_ext. intros x.
    destruct (selected qs (Sales_Quarter x) && selected rs (Region x))%bool eqn:E.
    - now rewrite (Himp x E).
    - apply andb_false_r. }
  split.
  { intros x. rewrite !data_filtered_filter, !filter_In. intuition. }
  split.
  { unfold total_deals, shape0. rewrite !data_filtered_filter, !length_filter_count.
    apply count_over_mono. intros r _. apply Himp. }
  rewrite !closed_won_count, !data_filtered_filter.
  rewrite <- !length_filter_count, !filter_filter, !length_filter_count.
  apply count_over_mono. intros r _ Hx.
  apply andb_true_iff in Hx. destruct Hx as [H1 H2].
  apply andb_true_iff. split; [now apply Himp | assumption].
Qed.

Lemma narrowing_a_selection_example :
  incl ["Q1-FY25"] ["Q1-FY25"; "Q2-FY25"]
  /\ incl ["EU"] ["EU"; "US"]
  /\ data_filtered (data_filtered example_data ["Q1-FY25"; "Q2-FY25"] ["EU"; "US"])
       ["Q1-FY25"] ["EU"]
     = data_filtered example_data ["Q1-FY25"] ["EU"]
  /\ (forall x, In x (data_filtered example_data ["Q1-FY25"] ["EU"]) ->
                In x (data_filtered example_data ["Q1-FY25"; "Q2-FY25"] ["EU"; "US"]))
  /\ (total_deals (data_filtered example_data ["Q1-FY25"] ["EU"])
      <= total_deals (data_filtered example_data ["Q1-FY25"; "Q2-FY25"] ["EU"; "US"]))%nat
  /\ (closed_won (data_filtered example_data ["Q1-FY25"] ["EU"])
      <= closed_won (data_filtered example_data ["Q1-FY25"; "Q2-FY25"] ["EU"; "US"]))%nat.
Proof.
  assert (H1 : incl ["Q1-FY25"] ["Q1-FY25"; "Q2-FY25"]).
  { intros x [<- | []]. simpl. tauto. }
  assert (H2 : incl ["EU"] ["EU"; "US"]).
  { intros x [<- | []]. simpl. tauto. }
  split; [exact H1 |]. split; [exact H2 |].
  exact (narrowing_a_selection example_data _ _ _ _ H1 H2).
Defined.

(** * Further properties of the metrics *)

Lemma of_nat_eq_0 (n : nat) : of_nat n == 0 <-> n = O.
Proof.
  unfold of_nat. replace 0 with (inject_Z 0) by reflexivity.
  rewrite inject_Z_injective. lia.
Qed.

Lemma of_nat_inj (m n : nat) : of_nat m == of_nat n <-> m = n.
Proof. unfold of_nat. rewrite inject_Z_injective. lia. Qed.

Lemma ratio_zero (c n : nat) :
  (0 < n)%nat -> (of_nat c / of_nat n * 100 == 0 <-> c = O).
Proof.
  intros Hn. pose proof (of_nat_pos n Hn) as Hpos.
  rewrite <- of_nat_eq_0. split; intros H.
  - assert (Hc : of_nat c == (of_nat c / of_nat n * 100) * (of_nat n / 100)).
    { field. intros E. rewrite E in Hpos. now apply Qlt_irrefl in Hpos. }
    rewrite Hc, H. ring.
  - rewrite H. field. intros E. rewrite E in Hpos. now apply Qlt_irrefl in Hpos.
Qed.

Lemma ratio_full (c n : nat) :
  (0 < n)%nat -> (of_nat c / of_nat n * 100 == 100 <-> c = n).
Proof.
  intros Hn. pose proof (of_nat_pos n Hn) as Hpos.
  assert (Hne : ~ of_nat n == 0).
  { intros E. rewrite E in Hpos. now apply Qlt_irrefl in Hpos. }
  rewrite <- of_nat_inj. split; intros H.
  - assert (Hc : of_nat c == (of_nat c / of_nat n * 100) * (of_nat n / 100))
      by (field; exact Hne).
    rewrite Hc, H. field.
  - rewrite H. field. exact Hne.
Qed.

Lemma no_won_rows (df : DataFrame) :
  count_over (is_stage Closed_Won) df = O
  <-> forall r, In r df -> Deal_Stage r <> Closed_Won.
Proof.
  induction df as [|x df IH]; simpl.
  - split; [intros _ r [] | reflexivity].
  - destruct (is_stage Closed_Won x) eqn:E.
    + split; [discriminate |]. intros Hall. apply is_stage_true in E.
      now elim (Hall x (or_introl eq_refl)).
    + rewrite IH. unfold is_stage in E. apply String.eqb_neq in E. split.
      * intros Hall r [<- | Hr]; auto.
      * intros Hall r Hr. apply Hall. now right.
Qed.

Lemma only_won_rows (df : DataFrame) :
  count_over (is_stage Closed_Won) df = List.length df
  <-> forall r, In r df -> Deal_Stage r = Closed_Won.
Proof.
  induction df as [|x df IH]; simpl.
  - split; [intros _ r [] | reflexivity].
  - pose proof (count_over_le (is_stage Closed_Won) df) as Hle.
    destruct (is_stage Closed_Won x) eqn:E.
    + apply is_stage_true in E. split.
      * intros Hc r [<- | Hr]; [exact E |]. apply IH; [lia | exact Hr].
      * intros Hrows. f_equal. apply IH. intros r Hr. apply Hrows. now right.
    + split; [lia |]. intros Hrows. unfold is_stage in E.
      apply String.eqb_neq in E. elim E. apply Hrows. now left.
Qed.

(** X7. The number of won deals is at most the number of deals; the win
    rate is 0 exactly when the view has no Closed-Won row (as on the empty
    view), and it is 100 exactly when the view has a row and all of its
    rows are Closed-Won. *)
Theorem win_rate_extremes (df : DataFrame) :
  (closed_won df <= total_deals df)%nat
  /\ (win_rate df == 0 <-> forall r, In r df -> Deal_Stage r <> Closed_Won)
  /\ (win_rate df == 100 <->
      df <> [] /\ forall r, In r df -> Deal_Stage r = Closed_Won).
Proof.
  split; [rewrite closed_won_count; apply count_over_le |].
  unfold win_rate, total_deals, shape0. rewrite closed_won_count.
  destruct (Nat.ltb 0 (List.length df)) eqn:Hlt.
  - apply Nat.ltb_lt in Hlt. rewrite ratio_zero, ratio_full by exact Hlt.
    rewrite no_won_rows, only_won_rows. split; [reflexivity |].
    split; [intros H; split; [intros ->; simpl in Hlt; lia | exact H] | tauto].
  - apply Nat.ltb_ge in Hlt. destruct df; [| simpl in Hlt; lia].
    split.
    + split; [intros _ r [] | reflexivity].
    + split; [intros H; discriminate H | intros [H _]; now elim H].
Qed.

(** * Further properties of the leaderboard *)

Lemma StronglySorted_app_between {A : Type} (R : A -> A -> Prop) (l1 l2 : list A) :
  StronglySorted R (l1 ++ l2) ->
  forall a b, In a l1 -> In b l2 -> R a b.
Proof.
  induction l1 as [|x l1 IH]; simpl; intros Hs a b Ha Hb; [destruct Ha |].
  apply StronglySorted_inv in Hs. destruct Hs as [Hs Hall].
  destruct Ha as [<- | Ha].
  - rewrite Forall_forall in Hall. apply Hall, in_or_app. now right.
  - now apply IH.
Qed.

(** X9. The rows left off the leaderboard are exactly the groups after the
    tenth in the sorted order, and none of them has a larger total than any
    listed row: for every sorting algorithm the listed rows together with
    the rows left off are the groups, at most ten are listed, and a group
    is left off only when ten are listed. *)
Theorem leaderboard_lists_the_largest (K : SortKind) (df : DataFrame) :
  exists rest,
    Permutation (@leaderboard K df ++ rest) (leaderboard_groups df)
    /\ Forall (fun g =>
         Forall (fun h => Total_Closed_Won g <= Total_Closed_Won h)
           (@leaderboard K df)) rest
    /\ List.length rest = (List.length (leaderboard_groups df) - 10)%nat
    /\ (rest = [] \/ List.length (@leaderboard K df) = 10%nat).
Proof.
  exists (skipn 10 (@sort_values K _ Total_Closed_Won false (leaderboard_groups df))).
  unfold leaderboard, head.
  set (sorted := @sort_values K _ Total_Closed_Won false (leaderboard_groups df)).
  assert (Hperm : Permutation sorted (leaderboard_groups df))
    by apply sort_values_perm.
  assert (Hdesc : StronglySorted
            (fun a b => Total_Closed_Won b <= Total_Closed_Won a) sorted)
    by apply (@sort_values_descending K).
  split; [now rewrite firstn_skipn |].
  split.
  { rewrite <- (firstn_skipn 10 sorted) in Hdesc.
    apply Forall_forall. intros g Hg. apply Forall_forall. intros h Hh.
    exact (StronglySorted_app_between _ _ _ Hdesc h g Hh Hg). }
  split; [rewrite length_skipn; now rewrite (Permutation_length Hperm) |].
  rewrite length_firstn.
  destruct (Nat.le_gt_cases (List.length sorted) 10) as [Hle | Hgt].
  - left. now apply skipn_all2.
  - right. lia.
Qed.

(** * Further properties of the roll-ups *)

Section RollUpFacts.
Context {K : Type} `{Label K}.

Lemma agg_sum_In (key : Deal -> K) (df : DataFrame) (k : K) (v : Q) :
  In (k, v) (agg_sum (groupby key df)) ->
  In k (group_keys key df)
  /\ v = Series.sum (map Deal_Value_USD (get_group key df k)).
Proof.
  unfold agg_sum, groupby. rewrite map_map. intros Hin.
  apply in_map_iff in Hin. destruct Hin as [k' [Heq Hk]]. simpl in Heq.
  injection Heq as -> <-. split; [exact Hk | reflexivity].
Qed.

Lemma agg_sum_keys (key : Deal -> K) (df : DataFrame) :
  map fst (agg_sum (groupby key df)) = group_keys key df.
Proof.
  unfold agg_sum, groupby. rewrite !map_map. simpl. apply map_id.
Qed.

Lemma agg_mean_keys (key : Deal -> K) (df : DataFrame) :
  map fst (agg_mean (groupby key df)) = group_keys key df.
Proof.
  unfold agg_mean, groupby. rewrite !map_map. simpl. apply map_id.
Qed.

End RollUpFacts.

Lemma leaderboard_In_groups (K : SortKind) (df : DataFrame) (g : LeaderRow) :
  In g (@leaderboard K df) -> In g (leaderboard_groups df).
Proof.
  unfold leaderboard, head. intros Hin.
  apply (Permutation_in _ (sort_values_perm Total_Closed_Won false _)).
  rewrite <- (firstn_skipn 10 (sort_values _ _ _)). apply in_or_app. now left.
Qed.

(** X14. The tables show nothing from outside the selection: every row of
    the region by category roll-up has a selected region and comes from a
    row of the table with that region and category, a selected quarter and
    a selected stage; every leaderboard row, under any sorting algorithm,
    has a selected region and comes from a Closed-Won row of that
    salesperson and region in a selected quarter. *)
Theorem roll_ups_stay_within_selection (K : SortKind) (data : DataFrame)
    (qs rs ss : list string) :
  Forall (fun row =>
      In (fst (fst row)) rs
      /\ exists r, In r data /\ In (Sales_Quarter r) qs /\ In (Deal_Stage r) ss
           /\ Region r = fst (fst row) /\ Product_Category r = snd (fst row))
    (region_category_revenue
       (region_filtered_data (data_filtered data qs rs) ss))
  /\ Forall (fun g =>
      In (lb_Region g) rs
      /\ exists r, In r data /\ In (Sales_Quarter r) qs
           /\ Deal_Stage r = Closed_Won
           /\ Salesperson_ID r = lb_Salesperson_ID g /\ Region r = lb_Region g)
    (@leaderboard K (data_filtered data qs rs)).
Proof.
  split.
  - apply Forall_forall. intros [[rg cat] v] Hin.
    unfold region_category_revenue in Hin. apply agg_sum_In in Hin.
    destruct Hin as [Hk _]. apply group_keys_In in Hk.
    destruct Hk as [r [Hr Hkey]]. injection Hkey as <- <-.
    rewrite region_filtered_data_filter, data_filtered_filter, filter_filter in Hr.
    apply filter_In in Hr. destruct Hr as [Hr Hsel].
    rewrite !andb_true_iff, !selected_In in Hsel. simpl.
    split; [tauto |]. exists r. tauto.
  - apply Forall_forall. intros g Hg. apply leaderboard_In_groups in Hg.
    assert (Hk : In (leader_key g) (map leader_key
                   (leaderboard_groups (data_filtered data qs rs))))
      by now apply in_map.
    rewrite leaderboard_groups_keys in Hk. apply group_keys_In in Hk.
    destruct Hk as [r [Hr Hkey]]. unfold leader_key in Hkey.
    injection Hkey as Hsp Hrg.
    apply filter_In in Hr. destruct Hr as [Hr Hwon]. apply is_stage_true in Hwon.
    rewrite data_filtered_filter in Hr. apply filter_In in Hr.
    destruct Hr as [Hr Hsel]. rewrite andb_true_iff, !selected_In in Hsel.
    split; [rewrite <- Hrg; tauto |]. exists r. tauto.
Qed.

(** * The pulled slice of the pie chart *)

Lemma Qle_bool_true_false (x b : Q) : Qle_bool x b = false -> b < x.
Proof.
  intros Hf. apply Qnot_le_lt. intros Hle. apply Qle_bool_iff in Hle. congruence.
Qed.

(** What the scan returns: either the position and value it started with,
    when nothing later is larger, or a later position; in both cases the
    value there bounds all scanned values and strictly bounds the ones
    scanned before it. *)
Lemma idxmax_scan_spec (t : list Q) :
  forall (i best_i : nat) (best : Q),
  (best_i < i)%nat ->
  exists vm,
    ((idxmax_scan t i best_i best = best_i /\ vm = best)
     \/ ((i <= idxmax_scan t i best_i best < i + List.length t)%nat
         /\ nth_error t (idxmax_scan t i best_i best - i) = Some vm
         /\ best < vm))
    /\ best <= vm
    /\ Forall (fun v => v <= vm) t
    /\ (forall j v, nth_error t j = Some v ->
          (i + j < idxmax_scan t i best_i best)%nat -> v < vm).
Proof.
  induction t as [|x t IH]; intros i bi b Hbi; simpl.
  - exists b. split; [left; split; reflexivity |].
    split; [apply Qle_refl |]. split; [constructor |].
    intros j v Hj. destruct j; discriminate.
  - destruct (Qle_bool x b) eqn:E.
    + apply Qle_bool_iff in E.
      destruct (IH (S i) bi b) as (vm & Hpos & Hb & Hall & Hbefore); [lia |].
      exists vm. split.
      { destruct Hpos as [[Hm Hv] | (Hm & Hn & Hlt)]; [left; tauto |].
        right. split; [lia |]. split; [| exact Hlt].
        replace (idxmax_scan t (S i) bi b - i)%nat
          with (S (idxmax_scan t (S i) bi b - S i)) by lia.
        exact Hn. }
      split; [exact Hb |].
      split; [constructor; [now apply Qle_trans with b | exact Hall] |].
      intros j v Hj Hlt. destruct j as [|j]; simpl in Hj.
      * injection Hj as <-.
        destruct Hpos as [[Hm _] | (_ & _ & Hbv)]; [lia |].
        now apply Qle_lt_trans with b.
      * apply (Hbefore j v Hj). lia.
    + apply Qle_bool_true_false in E.
      destruct (IH (S i) i x) as (vm & Hpos & Hb & Hall & Hbefore); [lia |].
      exists vm. split.
      { right. destruct Hpos as [[Hm Hv] | (Hm & Hn & Hlt)].
        - rewrite Hm, Hv. split; [lia |].
          rewrite Nat.sub_diag. split; [reflexivity | exact E].
        - split; [lia |]. split; [| now apply Qlt_trans with x].
          replace (idxmax_scan t (S i) i x - i)%nat
            with (S (idxmax_scan t (S i) i x - S i)) by lia.
          exact Hn. }
      split; [apply Qlt_le_weak; now apply Qlt_le_trans with x |].
      split; [constructor; assumption |].
      intros j v Hj Hlt. destruct j as [|j]; simpl in Hj.
      * injection Hj as <-.
        destruct Hpos as [[Hm _] | (_ & _ & Hxv)]; [lia | exact Hxv].
      * apply (Hbefore j v Hj). lia.
Qed.

Lemma idxmax_first_largest (s : list Q) :
  s <> [] ->
  exists m vm,
    idxmax s = Some m
    /\ nth_error s m = Some vm
    /\ forall j v, nth_error s j = Some v -> v <= vm /\ ((j < m)%nat -> v < vm).
Proof.
  destruct s as [|x t]; [intros Hne; now elim Hne | intros _].
  destruct (idxmax_scan_spec t 1 0 x) as (vm & Hpos & Hb & Hall & Hbefore); [lia |].
  exists (idxmax_scan t 1 0 x), vm. split; [reflexivity |]. split.
  - destruct Hpos as [[-> ->] | (Hm & Hn & _)]; [reflexivity |].
    replace (idxmax_scan t 1 0 x) with (S (idxmax_scan t 1 0 x - 1)) at 1 by lia.
    exact Hn.
  - intros j v Hj. destruct j as [|j]; simpl in Hj.
    + injection Hj as <-. split; [exact Hb |]. intros Hlt.
      destruct Hpos as [[Hm _] | (_ & _ & Hxv)]; [lia | exact Hxv].
    + split.
      * rewrite Forall_forall in Hall. apply Hall. eapply nth_error_In. exact Hj.
      * intros Hlt. apply (Hbefore j v Hj). lia.
Qed.

Lemma pull_from_Some (s : list Q) (m : nat) (indices : list nat) :
  idxmax s = Some m ->
  pull_from s indices
  = Some (map (fun i => if Nat.eqb i m then 1 # 10 else 0) indices).
Proof.
  intros Hm. induction indices as [|i rest IH]; simpl; [reflexivity |].
  now rewrite Hm, IH.
Qed.

(** X15. Building the pull list never fails, although [idxmax] alone
    raises on a table without rows: on no rows the list is empty; otherwise
    it has one entry per row, the entry at the position [idxmax] returns is
    0.1 and all others are 0, and that position holds the largest value,
    with every earlier value strictly smaller. *)
Theorem pull_marks_first_largest (category_revenue : list (string * Q)) :
  idxmax [] = None
  /\ pull [] = Some []
  /\ exists p,
       pull category_revenue = Some p
       /\ List.length p = List.length category_revenue
       /\ (category_revenue <> [] ->
           exists m vm,
             idxmax (map snd category_revenue) = Some m
             /\ nth_error (map snd category_revenue) m = Some vm
             /\ (forall j v, nth_error (map snd category_revenue) j = Some v ->
                   v <= vm /\ ((j < m)%nat -> v < vm))
             /\ (forall i, (i < List.length category_revenue)%nat ->
                   nth_error p i = Some (if Nat.eqb i m then 1 # 10 else 0))).
Proof.
  split; [reflexivity |]. split; [reflexivity |].
  destruct category_revenue as [|row rows].
  - exists []. split; [reflexivity |]. split; [reflexivity |].
    intros Hne. now elim Hne.
  - set (cr := row :: rows).
    destruct (idxmax_first_largest (map snd cr)) as (m & vm & Hm & Hvm & Hmax);
      [discriminate |].
    exists (map (fun i => if Nat.eqb i m then 1 # 10 else 0)
              (seq 0 (List.length cr))).
    split; [unfold pull; now apply pull_from_Some |].
    split; [now rewrite length_map, length_seq |].
    intros _. exists m, vm.
    split; [exact Hm |]. split; [exact Hvm |]. split; [exact Hmax |].
    intros i Hi. rewrite nth_error_map, nth_error_seq.
    apply Nat.ltb_lt in Hi. now rewrite Hi.
Qed.

(** * Order of the roll-up rows *)

Lemma ascii_compare_refl (c : ascii) : Ascii.compare c c = Eq.
Proof. unfold Ascii.compare. apply N.compare_refl. Qed.

Lemma string_compare_refl (s : string) : String.compare s s = Eq.
Proof.
  induction s as [|c s IH]; simpl; [reflexivity |].
  now rewrite ascii_compare_refl.
Qed.

Lemma ascii_compare_lt_trans (a b c : ascii) :
  Ascii.compare a b = Lt -> Ascii.compare b c = Lt -> Ascii.compare a c = Lt.
Proof.
  unfold Ascii.compare. rewrite !N.compare_lt_iff. apply N.lt_trans.
Qed.

Lemma string_compare_lt_trans (a : string) :
  forall b c, String.compare a b = Lt -> String.compare b c = Lt ->
              String.compare a c = Lt.
Proof.
  induction a as [|x a IH]; intros [|y b] [|z c]; simpl; try congruence.
  destruct (Ascii.compare x y) eqn:Exy; try discriminate;
    destruct (Ascii.compare y z) eqn:Eyz; try discriminate; intros Hab Hbc.
  - apply Ascii.compare_eq_iff in Exy, Eyz. subst.
    rewrite ascii_compare_refl. eapply IH; eassumption.
  - apply Ascii.compare_eq_iff in Exy. subst. now rewrite Eyz.
  - apply Ascii.compare_eq_iff in Eyz. subst. now rewrite Exy.
  - now rewrite (ascii_compare_lt_trans x y z Exy Eyz).
Qed.

Lemma string_leb_cases (a b : string) :
  String.leb a b = true <-> String.compare a b = Lt \/ a = b.
Proof.
  unfold String.leb. split.
  - destruct (String.compare a b) eqn:E; try discriminate; intros _.
    + right. now apply String.compare_eq_iff.
    + now left.
  - intros [-> | ->]; [reflexivity |]. now rewrite string_compare_refl.
Qed.

Lemma string_leb_trans (a b c : string) :
  String.leb a b = true -> String.leb b c = true -> String.leb a c = true.
Proof.
  rewrite !string_leb_cases. intros [Hab | ->] [Hbc | ->]; auto.
  left. eapply string_compare_lt_trans; eassumption.
Qed.

#[export] Instance string_LabelOrder : LabelOrder string := {
  label_leb_total := String.leb_total;
  label_leb_trans := string_leb_trans;
  label_leb_antisym := String.leb_antisym
}.

Section PairOrder.
Context {A B : Type} `{LabelOrder A} `{LabelOrder B}.

Lemma pair_leb_total (x y : A * B) : pair_leb x y = true \/ pair_leb y x = true.
Proof.
  destruct x as [a b], y as [c d]. unfold pair_leb. simpl.
  destruct (label_eqb a c) eqn:E.
  - apply label_eqb_eq in E. subst. rewrite label_eqb_refl. apply label_leb_total.
  - assert (E' : label_eqb c a = false).
    { apply label_eqb_false. apply label_eqb_false in E. congruence. }
    rewrite E'. apply label_leb_total.
Qed.

Lemma pair_leb_trans (x y z : A * B) :
  pair_leb x y = true -> pair_leb y z = true -> pair_leb x z = true.
Proof.
  destruct x as [a b], y as [c d], z as [e f]. unfold pair_leb. simpl.
  destruct (label_eqb a c) eqn:Eac.
  - apply label_eqb_eq in Eac. subst c.
    destruct (label_eqb a e) eqn:Eae; [apply label_leb_trans | auto].
  - destruct (label_eqb c e) eqn:Ece.
    + apply label_eqb_eq in Ece. subst e. rewrite Eac. auto.
    + intros Hac Hce. destruct (label_eqb a e) eqn:Eae.
      * apply label_eqb_eq in Eae. subst e.
        apply label_eqb_false in Eac. elim Eac.
        now apply label_leb_antisym.
      * eapply label_leb_trans; eassumption.
Qed.

Lemma pair_leb_antisym (x y : A * B) :
  pair_leb x y = true -> pair_leb y x = true -> x = y.
Proof.
  destruct x as [a b], y as [c d]. unfold pair_leb. simpl.
  destruct (label_eqb a c) eqn:E.
  - apply label_eqb_eq in E. subst c. rewrite label_eqb_refl.
    intros Hbd Hdb. f_equal. now apply label_leb_antisym.
  - assert (E' : label_eqb c a = false).
    { apply label_eqb_false. apply label_eqb_false in E. congruence. }
    rewrite E'. intros Hac Hca. apply label_eqb_false in E. elim E.
    now apply label_leb_antisym.
Qed.

#[export] Instance pair_LabelOrder : LabelOrder (A * B) := {
  label_leb_total := pair_leb_total;
  label_leb_trans := pair_leb_trans;
  label_leb_antisym := pair_leb_antisym
}.

End PairOrder.

Section SortedKeys.
Context {K : Type} `{LabelOrder K}.

Lemma insert_key_sorted (k : K) (ks : list K) :
  StronglySorted (fun a b => label_leb a b = true) ks ->
  StronglySorted (fun a b => label_leb a b = true) (insert_key k ks).
Proof.
  induction 1 as [|h t Hs IH Hall]; simpl.
  - repeat constructor.
  - destruct (label_leb k h) eqn:E.
    + constructor; [now constructor |]. constructor; [exact E |].
      eapply Forall_impl; [| exact Hall]. intros y Hy. simpl in Hy.
      eapply label_leb_trans; eassumption.
    + constructor; [exact IH |].
      apply (Permutation_Forall (Permutation_sym (insert_key_perm k t))).
      constructor; [| exact Hall].
      destruct (label_leb_total k h) as [Hkh | Hhk]; [congruence | exact Hhk].
Qed.

Lemma sort_keys_sorted (ks : list K) :
  StronglySorted (fun a b => label_leb a b = true) (sort_keys ks).
Proof.
  induction ks as [|k ks IH]; simpl; [constructor |].
  now apply insert_key_sorted.
Qed.

Lemma sorted_NoDup_ascending (ks : list K) :
  StronglySorted (fun a b => label_leb a b = true) ks -> NoDup ks ->
  keys_ascending ks.
Proof.
  unfold keys_ascending. induction 1 as [|h t Hs IH Hall]; intros Hnd.
  - constructor.
  - inversion Hnd as [|? ? Hh Ht]; subst. constructor; [now apply IH |].
    rewrite Forall_forall in *. intros y Hy. split; [now apply Hall |].
    intros ->. contradiction.
Qed.

End SortedKeys.

(** X19. The two category charts agree on what they show: every product
    category of the revenue pie chart (Closed-Won rows only) is also a
    category of the average-deal-value chart (all rows), and every category
    of the latter that has a Closed-Won row is in the former. *)
Theorem category_charts_agree (df : DataFrame) (c : string) :
  Forall (fun row => In (fst row) (map fst (category_avg_deal df)))
    (category_revenue (category_revenue_closed_won df))
  /\ (In c (map fst (category_revenue (category_revenue_closed_won df))) <->
      In c (map fst (category_avg_deal df))
      /\ exists r, In r df /\ Product_Category r = c /\ Deal_Stage r = Closed_Won).
Proof.
  unfold category_revenue, category_revenue_closed_won, category_avg_deal.
  rewrite won_rows_filter, agg_mean_keys.
  assert (Hin : forall k,
    In k (map fst (agg_sum (groupby Product_Category (filter (is_stage Closed_Won) df))))
    <-> exists r, In r df /\ Product_Category r = k /\ Deal_Stage r = Closed_Won).
  { intros k. rewrite agg_sum_keys, group_keys_In. split.
    - intros [r [Hr Hk]]. apply filter_In in Hr. destruct Hr as [Hr Hw].
      apply is_stage_true in Hw. eauto.
    - intros [r (Hr & Hk & Hw)]. exists r. split; [| exact Hk].
      apply filter_In. split; [exact Hr | now apply is_stage_true]. }
  split.
  - apply Forall_forall. intros row Hrow.
    assert (Hk : In (fst row) (map fst (agg_sum (groupby Product_Category
                   (filter (is_stage Closed_Won) df))))) by now apply in_map.
    apply Hin in Hk. destruct Hk as [r (Hr & Hk & _)].
    apply group_keys_In. eauto.
  - rewrite Hin, group_keys_In. split.
    + intros [r (Hr & Hk & Hw)]. split; eauto.
    + tauto.
Qed.

(** * Properties of the table as stored *)

(** ** 64-bit integer arithmetic *)

Lemma wrap_in_int64 (z : Z) : AsRead.in_int64 (AsRead.wrap z).
Proof.
  unfold AsRead.in_int64, AsRead.wrap.
  pose proof (Z.mod_pos_bound (z + 2 ^ 63) (2 ^ 64) eq_refl) as Hb.
  change (2 ^ 64)%Z with (2 * 2 ^ 63)%Z in *. lia.
Qed.

Lemma wrap_small (z : Z) : AsRead.in_int64 z -> AsRead.wrap z = z.
Proof.
  unfold AsRead.in_int64, AsRead.wrap. intros Hz.
  rewrite Z.mod_small; [lia |].
  change (2 ^ 64)%Z with (2 * 2 ^ 63)%Z. lia.
Qed.

Lemma wrap_add_l (a b : Z) :
  AsRead.wrap (AsRead.wrap a + b) = AsRead.wrap (a + b).
Proof.
  unfold AsRead.wrap. f_equal.
  replace ((a + 2 ^ 63) mod 2 ^ 64 - 2 ^ 63 + b + 2 ^ 63)%Z
    with ((a + 2 ^ 63) mod 2 ^ 64 + b)%Z by ring.
  rewrite Zplus_mod_idemp_l. f_equal. ring.
Qed.

Lemma wrap_divide (z : Z) : (2 ^ 64 | AsRead.wrap z - z)%Z.
Proof.
  unfold AsRead.wrap.
  exists (- ((z + 2 ^ 63) / 2 ^ 64))%Z.
  pose proof (Z.div_mod (z + 2 ^ 63) (2 ^ 64)) as Hdm.
  assert (Hne : (2 ^ 64 <> 0)%Z) by discriminate.
  specialize (Hdm Hne). lia.
Qed.

Lemma mod_zero_divide (z : Z) : (z mod 2 ^ 64 = 0)%Z <-> (2 ^ 64 | z)%Z.
Proof. apply Z.mod_divide. discriminate. Qed.

Lemma sum_int64_from (s : list Z) (a : Z) :
  fold_left (fun acc v => AsRead.wrap (acc + v)) s (AsRead.wrap a)
  = AsRead.wrap (a + AsRead.exact_sum s).
Proof.
  revert a. induction s as [|x s IH]; intros a; simpl.
  - f_equal. ring.
  - rewrite wrap_add_l, IH. f_equal. ring.
Qed.

(** The sum of an integer column is the exact sum, wrapped once. *)
Lemma sum_int64 (s : list Z) : AsRead.sum s = AsRead.wrap (AsRead.exact_sum s).
Proof.
  unfold AsRead.sum. simpl.
  change 0%Z with (AsRead.wrap 0) at 1. apply sum_int64_from.
Qed.

(** ** Masks over a stored stage column *)

Lemma asread_equals_column {V : Type} (df : AsRead.Frame V) (stage : string) :
  AsRead.equals (map AsRead.Deal_Stage df) stage = map (AsRead.stage_is stage) df.
Proof. unfold AsRead.equals. now rewrite map_map. Qed.

Lemma asread_open_column {V : Type} (df : AsRead.Frame V) :
  Series.invert (AsRead.isin (map AsRead.Deal_Stage df) [Closed_Won; Closed_Lost])
  = map AsRead.is_open df.
Proof.
  unfold Series.invert, AsRead.isin. rewrite !map_map. apply map_ext.
  intros r. unfold AsRead.is_open, AsRead.stage_is. simpl.
  now rewrite orb_false_r.
Qed.

Lemma exact_sum_filter (P : AsRead.Row Z -> bool) (df : AsRead.Frame Z) :
  AsRead.exact_sum (map AsRead.Deal_Value_USD (filter P df)) = AsRead.sum_where P df.
Proof.
  induction df as [|r df IH]; simpl; [reflexivity |].
  destruct (P r); simpl; now rewrite IH.
Qed.

Lemma asread_total_pipeline_value (df : AsRead.Frame Z) :
  AsRead.total_pipeline_value df = AsRead.wrap (AsRead.sum_where AsRead.is_open df).
Proof.
  unfold AsRead.total_pipeline_value.
  now rewrite asread_open_column, boolean_index_map, sum_int64, exact_sum_filter.
Qed.

Lemma asread_total_closed_won (df : AsRead.Frame Z) :
  AsRead.total_closed_won df
  = AsRead.wrap (AsRead.sum_where (AsRead.stage_is Closed_Won) df).
Proof.
  unfold AsRead.total_closed_won.
  now rewrite asread_equals_column, boolean_index_map, sum_int64, exact_sum_filter.
Qed.

Lemma asread_total_closed_lost (df : AsRead.Frame Z) :
  AsRead.total_closed_lost df
  = AsRead.wrap (AsRead.sum_where (AsRead.stage_is Closed_Lost) df).
Proof.
  unfold AsRead.total_closed_lost.
  now rewrite asread_equals_column, boolean_index_map, sum_int64, exact_sum_filter.
Qed.

Lemma stage_is_true {V : Type} (stage : string) (r : AsRead.Row V) :
  AsRead.stage_is stage r = true
  <-> AsRead.Deal_Stage r = Some (AsRead.Text stage).
Proof.
  unfold AsRead.stage_is, AsRead.is_text.
  destruct (AsRead.Deal_Stage r) as [[t | z] |].
  - rewrite String.eqb_eq. split; [now intros -> | now intros [= ->]].
  - split; discriminate.
  - split; discriminate.
Qed.

Lemma asread_is_open_true {V : Type} (r : AsRead.Row V) :
  AsRead.is_open r = true
  <-> AsRead.Deal_Stage r <> Some (AsRead.Text Closed_Won)
      /\ AsRead.Deal_Stage r <> Some (AsRead.Text Closed_Lost).
Proof.
  unfold AsRead.is_open. rewrite negb_true_iff, orb_false_iff.
  rewrite <- !stage_is_true.
  destruct (AsRead.stage_is Closed_Won r), (AsRead.stage_is Closed_Lost r);
    intuition congruence.
Qed.



(** ** The three buckets of a stored view *)

Lemma asread_bucket_flags {V : Type} (r : AsRead.Row V) :
  (AsRead.is_open r = true /\ AsRead.stage_is Closed_Won r = false
   /\ AsRead.stage_is Closed_Lost r = false)
  \/ (AsRead.is_open r = false /\ AsRead.stage_is Closed_Won r = true
      /\ AsRead.stage_is Closed_Lost r = false)
  \/ (AsRead.is_open r = false /\ AsRead.stage_is Closed_Won r = false
      /\ AsRead.stage_is Closed_Lost r = true).
Proof.
  unfold AsRead.is_open.
  destruct (AsRead.stage_is Closed_Won r) eqn:Hw.
  - right; left. apply stage_is_true in Hw.
    assert (Hl : AsRead.stage_is Closed_Lost r = false).
    { destruct (AsRead.stage_is Closed_Lost r) eqn:Hl; [| reflexivity].
      apply stage_is_true in Hl. rewrite Hw in Hl. discriminate Hl. }
    rewrite Hl. repeat split.
  - destruct (AsRead.stage_is Closed_Lost r); [right; right | left]; repeat split.
Qed.

Lemma asread_buckets_partition (df : AsRead.Frame Z) :
  (AsRead.sum_where AsRead.is_open df
   + AsRead.sum_where (AsRead.stage_is Closed_Won) df
   + AsRead.sum_where (AsRead.stage_is Closed_Lost) df
   = AsRead.sum_where (fun _ => true) df)%Z.
Proof.
  induction df as [|r df IH]; simpl; [reflexivity |].
  destruct (asread_bucket_flags r) as [(-> & -> & ->) | [(-> & -> & ->) | (-> & -> & ->)]];
    lia.
Qed.

Lemma asread_view_total (df : AsRead.Frame Z) :
  AsRead.sum (map AsRead.Deal_Value_USD df)
  = AsRead.wrap (AsRead.sum_where (fun _ => true) df).
Proof.
  rewrite sum_int64. f_equal.
  induction df as [|r df IH]; simpl; [reflexivity | now rewrite IH].
Qed.

(** C6, as amended.  For a view whose value column holds 64-bit integers:
    every row is in exactly one of the three buckets, a missing stage
    counting as pipeline; the three totals and the total of the view are
    the wrapped sums over their rows, so the three totals add up to the
    total of the view modulo 2^64; and when none of the four sums leaves
    the signed 64-bit range the three totals add up to exactly the total
    of the view, hence to no more than it. *)
Theorem buckets_sum_int64 (df : AsRead.Frame Z) :
  (forall r : AsRead.Row Z,
     (AsRead.is_open r = true /\ AsRead.stage_is Closed_Won r = false
      /\ AsRead.stage_is Closed_Lost r = false)
     \/ (AsRead.is_open r = false /\ AsRead.stage_is Closed_Won r = true
         /\ AsRead.stage_is Closed_Lost r = false)
     \/ (AsRead.is_open r = false /\ AsRead.stage_is Closed_Won r = false
         /\ AsRead.stage_is Closed_Lost r = true))
  /\ AsRead.total_pipeline_value df = AsRead.wrap (AsRead.sum_where AsRead.is_open df)
  /\ AsRead.total_closed_won df
     = AsRead.wrap (AsRead.sum_where (AsRead.stage_is Closed_Won) df)
  /\ AsRead.total_closed_lost df
     = AsRead.wrap (AsRead.sum_where (AsRead.stage_is Closed_Lost) df)
  /\ AsRead.sum (map AsRead.Deal_Value_USD df)
     = AsRead.wrap (AsRead.sum_where (fun _ => true) df)
  /\ ((AsRead.total_pipeline_value df + AsRead.total_closed_won df
       + AsRead.total_closed_lost df
       - AsRead.sum (map AsRead.Deal_Value_USD df)) mod 2 ^ 64 = 0)%Z
  /\ (AsRead.in_int64 (AsRead.sum_where AsRead.is_open df) ->
      AsRead.in_int64 (AsRead.sum_where (AsRead.stage_is Closed_Won) df) ->
      AsRead.in_int64 (AsRead.sum_where (AsRead.stage_is Closed_Lost) df) ->
      AsRead.in_int64 (AsRead.sum_where (fun _ => true) df) ->
      (AsRead.total_pipeline_value df + AsRead.total_closed_won df
       + AsRead.total_closed_lost df
       = AsRead.sum (map AsRead.Deal_Value_USD df))%Z
      /\ (AsRead.total_pipeline_value df + AsRead.total_closed_won df
          + AsRead.total_closed_lost df
          <= AsRead.sum (map AsRead.Deal_Value_USD df))%Z).
Proof.
  split; [intros r; apply asread_bucket_flags |].
  rewrite asread_total_pipeline_value, asread_total_closed_won,
    asread_total_closed_lost, asread_view_total.
  repeat (split; [reflexivity |]).
  pose proof (asread_buckets_partition df) as Hpart.
  split.
  - apply mod_zero_divide.
    pose proof (wrap_divide (AsRead.sum_where AsRead.is_open df)) as [a Ha].
    pose proof (wrap_divide (AsRead.sum_where (AsRead.stage_is Closed_Won) df)) as [b Hb].
    pose proof (wrap_divide (AsRead.sum_where (AsRead.stage_is Closed_Lost) df)) as [c Hc].
    pose proof (wrap_divide (AsRead.sum_where (fun _ => true) df)) as [d Hd].
    exists (a + b + c - d)%Z. lia.
  - intros Ho Hw Hl Ha. rewrite !wrap_small by assumption. lia.
Qed.

(** C6 as stated fails.  On an integer column a won and an open deal of
    2^62 each give three totals that add up to 2^63, more than the total
    -2^63 of the view.  On a floating point column deals of 0.1 (won), 0.4
    (open) and 0.1 (won) give totals that add up to more than the total of
    the view, in whichever order the three are added. *)
Lemma buckets_sum_fails :
  AsRead.total_pipeline_value AsRead.large_won_and_open = (2 ^ 62)%Z
  /\ AsRead.total_closed_won AsRead.large_won_and_open = (2 ^ 62)%Z
  /\ AsRead.total_closed_lost AsRead.large_won_and_open = 0%Z
  /\ AsRead.sum (map AsRead.Deal_Value_USD AsRead.large_won_and_open) = (- 2 ^ 63)%Z
  /\ ~ (AsRead.total_pipeline_value AsRead.large_won_and_open
        + AsRead.total_closed_won AsRead.large_won_and_open
        + AsRead.total_closed_lost AsRead.large_won_and_open
        <= AsRead.sum (map AsRead.Deal_Value_USD AsRead.large_won_and_open))%Z
  /\ PrimFloat.ltb
       (AsRead.sum (map AsRead.Deal_Value_USD AsRead.fractional))
       (PrimFloat.add
          (PrimFloat.add (AsRead.total_pipeline_value AsRead.fractional)
             (AsRead.total_closed_won AsRead.fractional))
          (AsRead.total_closed_lost AsRead.fractional)) = true
  /\ PrimFloat.ltb
       (AsRead.sum (map AsRead.Deal_Value_USD AsRead.fractional))
       (PrimFloat.add (AsRead.total_closed_lost AsRead.fractional)
          (PrimFloat.add (AsRead.total_closed_won AsRead.fractional)
             (AsRead.total_pipeline_value AsRead.fractional))) = true.
Proof.
  repeat (split; [vm_compute; reflexivity |]).
  split; [vm_compute; intros H; now apply H |].
  split; vm_compute; reflexivity.
Qed.

(** ** Group-by over a stored view *)

Section AsReadGroupFacts.
Context {V K : Type} `{Label K}.

Lemma present_In (s : list (option K)) (k : K) :
  In k (AsRead.present s) <-> In (Some k) s.
Proof.
  induction s as [|[k' |] s IH]; simpl; [tauto | |].
  - rewrite IH. split; [intros [-> | Hk]; auto | intros [[= ->] | Hk]; auto].
  - rewrite IH. split; [auto | intros [E | Hk]; [discriminate E | exact Hk]].
Qed.

Lemma asread_group_keys_In (key : AsRead.Row V -> option K) (df : AsRead.Frame V)
    (k : K) :
  In k (AsRead.group_keys key df) <-> exists r, In r df /\ key r = Some k.
Proof.
  unfold AsRead.group_keys. split.
  - intros Hk. apply (Permutation_in _ (sort_keys_perm _)) in Hk.
    apply unique_In, present_In, in_map_iff in Hk.
    destruct Hk as [r [Hr Hin]]. eauto.
  - intros [r [Hin Hr]].
    apply (Permutation_in _ (Permutation_sym (sort_keys_perm _))).
    apply unique_In, present_In, in_map_iff. eauto.
Qed.

Lemma asread_group_keys_NoDup (key : AsRead.Row V -> option K) (df : AsRead.Frame V) :
  NoDup (AsRead.group_keys key df).
Proof.
  unfold AsRead.group_keys.
  apply (Permutation_NoDup (Permutation_sym (sort_keys_perm _))).
  apply unique_NoDup.
Qed.

Lemma has_key_true (k : K) (o : option K) :
  AsRead.has_key k o = true <-> o = Some k.
Proof.
  destruct o as [k' |]; simpl; [| split; discriminate].
  rewrite label_eqb_eq. split; [now intros -> | now intros [= ->]].
Qed.

Lemma asread_groupby_nil (key : AsRead.Row V -> option K) (df : AsRead.Frame V) :
  AsRead.groupby key df = [] <-> forall r, In r df -> key r = None.
Proof.
  unfold AsRead.groupby. split.
  - intros Hnil r Hr. apply map_eq_nil in Hnil.
    destruct (key r) as [k |] eqn:Hk; [| reflexivity].
    assert (Hin : In k (AsRead.group_keys key df))
      by (apply asread_group_keys_In; eauto).
    rewrite Hnil in Hin. destruct Hin.
  - intros Hnone.
    destruct (AsRead.group_keys key df) as [|k ks] eqn:Hks; [reflexivity |].
    assert (Hin : In k (AsRead.group_keys key df)) by (rewrite Hks; now left).
    apply asread_group_keys_In in Hin. destruct Hin as [r [Hr Hk]].
    rewrite (Hnone r Hr) in Hk. discriminate Hk.
Qed.

End AsReadGroupFacts.

Section AsReadGroupSums.
Context {K : Type} `{Label K}.
Variable key : AsRead.Row Z -> option K.

Lemma sum_where_ext (P P' : AsRead.Row Z -> bool) (df : AsRead.Frame Z) :
  (forall r, In r df -> P r = P' r) -> AsRead.sum_where P df = AsRead.sum_where P' df.
Proof.
  induction df as [|r df IH]; simpl; intros Hext; [reflexivity |].
  rewrite (Hext r (or_introl eq_refl)), IH; [reflexivity |].
  intros x Hx. apply Hext. now right.
Qed.

Lemma sum_where_disjoint (P P' : AsRead.Row Z -> bool) (df : AsRead.Frame Z) :
  (forall r, P r = true -> P' r = false) ->
  (AsRead.sum_where P df + AsRead.sum_where P' df
   = AsRead.sum_where (fun r => (P r || P' r)%bool) df)%Z.
Proof.
  intros Hdis. induction df as [|r df IH]; simpl; [reflexivity |].
  destruct (P r) eqn:HP; simpl.
  - rewrite (Hdis r HP). lia.
  - destruct (P' r); lia.
Qed.

Definition key_is_among (ks : list K) (r : AsRead.Row Z) : bool :=
  existsb (fun k => AsRead.has_key k (key r)) ks.

(** The exact sums of the groups of pairwise distinct keys add up to the
    exact sum over the rows that have one of these keys. *)
Lemma group_sums_exact (df : AsRead.Frame Z) (ks : list K) :
  NoDup ks ->
  AsRead.exact_sum (map (fun k => AsRead.sum_where (AsRead.in_group key k) df) ks)
  = AsRead.sum_where (key_is_among ks) df.
Proof.
  induction 1 as [|k ks Hk Hnd IH]; simpl.
  - induction df as [|r df IHd]; simpl; [reflexivity | exact IHd].
  - rewrite IH, sum_where_disjoint; [reflexivity |].
    intros r Hr. unfold AsRead.in_group in Hr. apply has_key_true in Hr.
    unfold key_is_among. rewrite Hr.
    destruct (existsb _ ks) eqn:E; [| reflexivity].
    apply existsb_exists in E. destruct E as [k' [Hin Hk']].
    apply has_key_true in Hk'. injection Hk' as ->. contradiction.
Qed.

Lemma group_sums_cover (df : AsRead.Frame Z) :
  AsRead.exact_sum
    (map (fun k => AsRead.sum_where (AsRead.in_group key k) df)
       (AsRead.group_keys key df))
  = AsRead.sum_where (AsRead.keyed key) df.
Proof.
  rewrite group_sums_exact by apply asread_group_keys_NoDup.
  apply sum_where_ext. intros r Hr. unfold key_is_among, AsRead.keyed.
  destruct (key r) as [k |] eqn:Hk.
  - apply existsb_exists. exists k. split.
    + apply asread_group_keys_In. eauto.
    + simpl. apply label_eqb_eq. reflexivity.
  - destruct (existsb _ _) eqn:E; [| reflexivity].
    apply existsb_exists in E. destruct E as [k [_ Hk']]. discriminate Hk'.
Qed.

Lemma wrapped_sums_divide (f : K -> Z) (ks : list K) :
  (2 ^ 64 | AsRead.exact_sum (map (fun k => AsRead.wrap (f k)) ks)
            - AsRead.exact_sum (map f ks))%Z.
Proof.
  induction ks as [|k ks IH]; simpl.
  - exists 0%Z. reflexivity.
  - destruct IH as [a Ha]. destruct (wrap_divide (f k)) as [b Hb].
    exists (a + b)%Z. lia.
Qed.

Lemma agg_sum_rows (df : AsRead.Frame Z) :
  AsRead.agg_sum (AsRead.groupby key df)
  = map (fun k => (k, AsRead.wrap (AsRead.sum_where (AsRead.in_group key k) df)))
      (AsRead.group_keys key df).
Proof.
  unfold AsRead.agg_sum, AsRead.groupby. rewrite map_map. apply map_ext.
  intros k. simpl. unfold AsRead.get_group. f_equal.
  rewrite sum_int64. f_equal. apply exact_sum_filter.
Qed.

(** Every sum roll-up of an integer column adds up as described. *)
Lemma agg_sum_adds_up (df : AsRead.Frame Z) :
  AsRead.rollup_adds_up key df (AsRead.agg_sum (AsRead.groupby key df)).
Proof.
  unfold AsRead.rollup_adds_up. rewrite agg_sum_rows.
  rewrite sum_int64, exact_sum_filter.
  split.
  { apply Forall_forall. intros row Hrow. apply in_map_iff in Hrow.
    destruct Hrow as [k [<- _]]. reflexivity. }
  rewrite map_map. simpl.
  split.
  - apply mod_zero_divide.
    destruct (wrapped_sums_divide
      (fun k => AsRead.sum_where (AsRead.in_group key k) df)
      (AsRead.group_keys key df)) as [a Ha].
    rewrite group_sums_cover in Ha.
    destruct (wrap_divide (AsRead.sum_where (AsRead.keyed key) df)) as [b Hb].
    exists (a - b)%Z. lia.
  - intros Hgroups Htotal.
    rewrite (wrap_small _ Htotal), <- group_sums_cover.
    f_equal. apply map_ext_in. intros k Hk. apply wrap_small.
    rewrite Forall_forall in Hgroups.
    apply (Hgroups (k, AsRead.wrap (AsRead.sum_where (AsRead.in_group key k) df))).
    apply in_map_iff. exists k. split; [reflexivity | exact Hk].
Qed.

End AsReadGroupSums.

Lemma filter_keyed_all {V K : Type} (key : AsRead.Row V -> option K)
    (population : AsRead.Frame V) :
  (forall r, In r population -> key r <> None) ->
  filter (AsRead.keyed key) population = population.
Proof.
  intros Hkeys. apply filter_all. intros r Hr. unfold AsRead.keyed.
  destruct (key r) eqn:E; [reflexivity | now elim (Hkeys r Hr)].
Qed.

(** C8, as amended.  For a view whose value column holds 64-bit integers
    and for each roll-up that sums by group (region by category over the
    stage-filtered view, the leaderboard totals and category revenue over
    the Closed-Won rows, lead source by stage over the view): the grouping
    leaves out the rows in which a key cell is missing; the total of a
    group is the wrapped sum over the rows with its key; the group totals
    add up to the sum over the grouped rows that have every key cell,
    modulo 2^64, and exactly when no sum leaves the signed 64-bit range.
    When no key cell is missing these rows are all the grouped rows. *)
Theorem grouped_sums_int64 (df region_filtered_data : AsRead.Frame Z) :
  AsRead.rollup_adds_up
    (fun r => AsRead.both (AsRead.Region r) (AsRead.Product_Category r))
    region_filtered_data (AsRead.region_category_revenue region_filtered_data)
  /\ AsRead.rollup_adds_up
       (fun r => AsRead.both (AsRead.Salesperson_ID r) (AsRead.Region r))
       (AsRead.category_revenue_closed_won df) (AsRead.leaderboard_totals df)
  /\ AsRead.rollup_adds_up AsRead.Product_Category
       (AsRead.category_revenue_closed_won df)
       (AsRead.category_revenue (AsRead.category_revenue_closed_won df))
  /\ AsRead.rollup_adds_up
       (fun r => AsRead.both (AsRead.Lead_Source r) (AsRead.Deal_Stage r))
       df (AsRead.lead_source_data df)
  /\ AsRead.sum (map AsRead.Deal_Value_USD (AsRead.category_revenue_closed_won df))
     = AsRead.total_closed_won df
  /\ (forall (K : Type) (key : AsRead.Row Z -> option K) (population : AsRead.Frame Z),
        (forall r, In r population -> key r <> None) ->
        filter (AsRead.keyed key) population = population).
Proof.
  split; [apply agg_sum_adds_up |].
  split; [apply agg_sum_adds_up |].
  split; [apply agg_sum_adds_up |].
  split; [apply agg_sum_adds_up |].
  split; [reflexivity |].
  intros K key population. apply filter_keyed_all.
Qed.

(** C8 as stated fails.  Of two Closed-Won deals of 20 and 40, the second
    with a missing region cell, the region by category roll-up and the
    leaderboard totals keep the first only: their totals add up to 20, and
    the rows that were grouped add up to 60.  With every key cell present,
    two deals of 2^62 in an integer column give lead source by stage
    totals that add up to 2^63 while the sum over the rows is -2^63; and
    deals of 0.1, 0.4 and 0.1 in a floating point column give totals that
    add up to more than the sum over the rows. *)
Lemma grouped_sums_drop_missing_keys :
  AsRead.region_category_revenue AsRead.region_missing
    = [((AsRead.Text "EU", AsRead.Text "Kubernetes"), 20%Z)]
  /\ AsRead.exact_sum (map snd (AsRead.region_category_revenue AsRead.region_missing))
     = 20%Z
  /\ AsRead.sum (map AsRead.Deal_Value_USD AsRead.region_missing) = 60%Z
  /\ AsRead.exact_sum (map snd (AsRead.leaderboard_totals AsRead.region_missing))
     = 20%Z
  /\ AsRead.total_closed_won AsRead.region_missing = 60%Z
  /\ AsRead.exact_sum (map snd (AsRead.region_category_revenue AsRead.region_missing))
     <> AsRead.sum (map AsRead.Deal_Value_USD AsRead.region_missing)
  /\ AsRead.lead_source_data AsRead.large_won_and_open
     = [((AsRead.Text "Web", AsRead.Text "Closed-Won"), (2 ^ 62)%Z);
        ((AsRead.Text "Web", AsRead.Text "Negotiation"), (2 ^ 62)%Z)]
  /\ AsRead.sum (map AsRead.Deal_Value_USD AsRead.large_won_and_open) = (- 2 ^ 63)%Z
  /\ AsRead.exact_sum (map snd (AsRead.lead_source_data AsRead.large_won_and_open))
     <> AsRead.sum (map AsRead.Deal_Value_USD AsRead.large_won_and_open)
  /\ map fst (AsRead.lead_source_data AsRead.fractional)
     = [(AsRead.Text "Web", AsRead.Text "Closed-Won");
        (AsRead.Text "Web", AsRead.Text "Negotiation")]
  /\ PrimFloat.ltb
       (AsRead.sum (map AsRead.Deal_Value_USD AsRead.fractional))
       (AsRead.sum (map snd (AsRead.lead_source_data AsRead.fractional))) = true.
Proof.
  repeat (split; [vm_compute; reflexivity |]).
  split; [vm_compute; discriminate |].
  repeat (split; [vm_compute; reflexivity |]).
  split; [vm_compute; discriminate |].
  split; vm_compute; reflexivity.
Qed.

(** * The table object through a session *)

Lemma start_intact (d : DataFrame) : Store.table_intact d (Store.start d).
Proof.
  unfold Store.table_intact, Store.start, Store.bind_name. simpl.
  split; [exists []; reflexivity |].
  split; [reflexivity |].
  split.
  - intros x Hx. destruct (Session.Var_eq_dec x Session.data); congruence.
  - intros x l. destruct (Session.Var_eq_dec x Session.data); [| discriminate].
    intros [= <-]. lia.
Qed.

(** A command that builds or shows keeps the table intact and only adds
    objects at the end of the heap. *)
Lemma step_keeps_table (d : DataFrame) (c : Store.Cmd) (st st' : Store.State) :
  Store.builds_or_shows c = true ->
  Store.table_intact d st ->
  Store.step c st = Some st' ->
  Store.table_intact d st'
  /\ exists added, Store.heap st' = (Store.heap st ++ added)%list.
Proof.
  intros Hc (Hheap & Hdata & Hothers & Hbound) Hstep.
  destruct c as [x e | x | x y | x f]; cbn [Store.builds_or_shows Store.step] in Hc, Hstep;
    try discriminate.
  - destruct (Session.Var_eq_dec x Session.data) as [| Hx]; [discriminate |].
    destruct (e (Store.lookup st)) as [v |]; [| discriminate].
    injection Hstep as <-. unfold Store.table_intact.
    cbn [Store.heap Store.names]. split; [| eauto].
    destruct Hheap as [made Hmade].
    split; [exists (made ++ [v])%list; now rewrite Hmade |].
    unfold Store.bind_name.
    split; [destruct (Session.Var_eq_dec Session.data x); congruence |].
    split.
    + intros y Hy. destruct (Session.Var_eq_dec y x).
      * rewrite Hmade. cbn [List.length]. discriminate.
      * now apply Hothers.
    + intros y l. rewrite length_app. cbn [List.length].
      destruct (Session.Var_eq_dec y x).
      * intros [= <-]. lia.
      * intros Hl. apply Hbound in Hl. lia.
  - destruct (Store.lookup st x); [| discriminate].
    injection Hstep as <-. split; [unfold Store.table_intact; auto |].
    exists []. now rewrite app_nil_r.
Qed.

Lemma run_keeps_table (d : DataFrame) (cmds : list Store.Cmd) :
  forallb Store.builds_or_shows cmds = true ->
  forall st st',
  Store.table_intact d st ->
  Store.run cmds st = Some st' ->
  Store.table_intact d st'
  /\ exists added, Store.heap st' = (Store.heap st ++ added)%list.
Proof.
  induction cmds as [|c cmds IH]; simpl; intros Hall st st' Hst Hrun.
  - injection Hrun as <-. split; [exact Hst |]. exists []. now rewrite app_nil_r.
  - apply andb_true_iff in Hall. destruct Hall as [Hc Hall].
    destruct (Store.step c st) as [st1 |] eqn:Hstep; [| discriminate].
    destruct (step_keeps_table d c st st1 Hc Hst Hstep) as [Hst1 [a1 Ha1]].
    destruct (IH Hall st1 st' Hst1 Hrun) as [Hst' [a2 Ha2]].
    split; [exact Hst' |]. exists (a1 ++ a2)%list.
    now rewrite Ha2, Ha1, app_assoc.
Qed.

Lemma script_builds_or_shows (K : SortKind) (w : Session.Widgets) :
  forallb Store.builds_or_shows (Store.script w) = true.
Proof. reflexivity. Qed.

Lemma forallb_prefix {A : Type} (f : A -> bool) (l1 l2 : list A) :
  forallb f (l1 ++ l2) = true -> forallb f l1 = true.
Proof. rewrite forallb_app, andb_true_iff. tauto. Qed.

Lemma script_reads_names (K : SortKind) (w : Session.Widgets) :
  Forall (fun s => reads_names (snd s)) (Session.script w).
Proof.
  unfold Session.script.
  repeat (constructor;
    [intros env env' Hsame; cbn [snd];
     unfold Session.bind, Session.frame, Session.labels, Session.number;
     rewrite !Hsame; reflexivity |]).
  constructor.
Qed.

Lemma run_shown (x : Session.Var) (cmds : list Store.Cmd) (st : Store.State) :
  Store.lookup st x <> None ->
  Store.run (Store.shown x ++ cmds) st = Store.run cmds st.
Proof.
  intros Hx. destruct x; cbn [Store.shown app]; try reflexivity;
    cbn [Store.run Store.step]; destruct (Store.lookup st _); congruence.
Qed.

(** The store runs the assignments as the environment does. *)
Lemma store_simulates (stmts : list (Session.Var * Session.Expr)) :
  Forall (fun s => reads_names (snd s)) stmts ->
  forall (st : Store.State) (env env' : Session.Env),
  (forall x, Store.lookup st x = env x) ->
  (forall x l, Store.names st x = Some l -> (l < List.length (Store.heap st))%nat) ->
  Session.exec stmts env = Some env' ->
  exists st',
    Store.run (flat_map (fun s => Store.New (fst s) (snd s) :: Store.shown (fst s)) stmts)
      st = Some st'
    /\ forall x, Store.lookup st' x = env' x.
Proof.
  induction 1 as [|[x e] stmts He Hrest IH]; intros st env env' Hsame Hbound Hexec.
  - simpl in Hexec. injection Hexec as <-. exists st. split; [reflexivity | exact Hsame].
  - cbn [Session.exec] in Hexec. cbn [snd] in He.
    destruct (e env) as [v |] eqn:Hv; [| discriminate].
    cbn [flat_map fst snd app Store.run Store.step].
    rewrite (He (Store.lookup st) env Hsame), Hv.
    set (st1 := Store.mkState (Store.heap st ++ [v])
                  (Store.bind_name (Store.names st) x (List.length (Store.heap st)))).
    assert (Hsame1 : forall y, Store.lookup st1 y = Session.update env x v y).
    { intros y. unfold Store.lookup, st1, Session.update, Store.bind_name.
      cbn [Store.heap Store.names].
      destruct (Session.Var_eq_dec y x).
      - rewrite nth_error_app2 by lia. now rewrite Nat.sub_diag.
      - rewrite <- Hsame. unfold Store.lookup.
        destruct (Store.names st y) as [l |] eqn:Hl; [| reflexivity].
        apply nth_error_app1. now apply (Hbound y). }
    assert (Hbound1 : forall y l, Store.names st1 y = Some l ->
                                  (l < List.length (Store.heap st1))%nat).
    { intros y l. unfold st1, Store.bind_name. cbn [Store.heap Store.names].
      rewrite length_app. cbn [List.length].
      destruct (Session.Var_eq_dec y x).
      - intros [= <-]. lia.
      - intros Hl. apply Hbound in Hl. lia. }
    rewrite run_shown.
    + apply (IH st1 (Session.update env x v) env' Hsame1 Hbound1 Hexec).
    + rewrite Hsame1. unfold Session.update.
      destruct (Session.Var_eq_dec x x); congruence.
Qed.

(** A run of the script completes, and its names stand for the values
    that the assignments compute. *)
Lemma store_run_values (K : SortKind) (w : Session.Widgets) (d : DataFrame) :
  exists st env,
    Store.run (Store.script w) (Store.start d) = Some st
    /\ Session.exec (Session.script w) (loaded d) = Some env
    /\ forall x, Store.lookup st x = env x.
Proof.
  destruct (script_values K w d) as [env [Hexec _]].
  destruct (store_simulates (Session.script w) (script_reads_names K w)
              (Store.start d) (loaded d) env) as [st [Hrun Hsame]].
  - intros x. unfold Store.lookup, Store.start, loaded, Session.update,
      Store.bind_name, Session.empty. cbn [Store.heap Store.names].
    destruct (Session.Var_eq_dec x Session.data); reflexivity.
  - apply (start_intact d).
  - exact Hexec.
  - exists st, env. auto.
Qed.

Lemma store_session_keeps_table (K : SortKind) (csv : DataFrame)
    (ws : list Session.Widgets) (cache : option DataFrame) :
  cache = None \/ cache = Some csv ->
  Forall (fun out => exists st, out = Some st /\ Store.table_intact csv st)
    (Store.session csv cache ws)
  /\ List.length (Store.session csv cache ws) = List.length ws.
Proof.
  revert cache. induction ws as [|w ws IH]; intros cache Hc; simpl;
    [split; [constructor | reflexivity] |].
  assert (Hload : Session.load_data csv cache = (csv, Some csv)).
  { destruct Hc as [-> | ->]; reflexivity. }
  unfold Store.rerun. rewrite Hload.
  destruct (IH (Some csv) (or_intror eq_refl)) as [Hall Hlen].
  split; [| simpl; now rewrite Hlen].
  constructor; [| exact Hall].
  destruct (store_run_values K w csv) as [st [env [Hrun _]]].
  exists st. split; [exact Hrun |].
  apply (run_keeps_table csv (Store.script w) (script_builds_or_shows K w)
           (Store.start csv) st (start_intact csv) Hrun).
Qed.


(** * Further properties of the stored view *)

Lemma sum_where_between (P P' : AsRead.Row Z -> bool) (df : AsRead.Frame Z) :
  (forall r, In r df -> (0 <= AsRead.Deal_Value_USD r)%Z) ->
  (forall r, P r = true -> P' r = true) ->
  (0 <= AsRead.sum_where P df <= AsRead.sum_where P' df)%Z.
Proof.
  intros Hpos Himp. induction df as [|x df IH]; simpl; [lia |].
  assert (Ht : (0 <= AsRead.sum_where P df <= AsRead.sum_where P' df)%Z)
    by (apply IH; intros r Hr; apply Hpos; now right).
  pose proof (Hpos x (or_introl eq_refl)) as Hx.
  destruct (P x) eqn:HP.
  - rewrite (Himp x HP). lia.
  - destruct (P' x); lia.
Qed.

Lemma sum_where_filter (F P : AsRead.Row Z -> bool) (df : AsRead.Frame Z) :
  AsRead.sum_where P (filter F df)
  = AsRead.sum_where (fun r => (F r && P r)%bool) df.
Proof.
  induction df as [|r df IH]; simpl; [reflexivity |].
  destruct (F r); simpl; now rewrite IH.
Qed.

Lemma wrap_between (z hi : Z) :
  (0 <= z <= hi)%Z -> AsRead.in_int64 hi -> AsRead.wrap z = z.
Proof.
  intros Hz Hhi. apply wrap_small. unfold AsRead.in_int64 in *. lia.
Qed.

(** X8. For an integer value column: when no deal of the view has a
    negative value and the exact sum of all its values is below 2^63, each
    of the three value totals lies between 0 and the total of the view,
    and every leaderboard total lies between 0 and the Closed-Won total.
    Without the bound on the sum the totals can wrap to a negative
    number. *)
Theorem nonnegative_int64_totals_bounded (df : AsRead.Frame Z) :
  (forall r, In r df -> (0 <= AsRead.Deal_Value_USD r)%Z) ->
  AsRead.in_int64 (AsRead.sum_where (fun _ => true) df) ->
  (0 <= AsRead.total_pipeline_value df
     <= AsRead.sum (map AsRead.Deal_Value_USD df))%Z
  /\ (0 <= AsRead.total_closed_won df
        <= AsRead.sum (map AsRead.Deal_Value_USD df))%Z
  /\ (0 <= AsRead.total_closed_lost df
        <= AsRead.sum (map AsRead.Deal_Value_USD df))%Z
  /\ Forall (fun row => (0 <= snd row <= AsRead.total_closed_won df)%Z)
       (AsRead.leaderboard_totals df).
Proof.
  intros Hpos Hrange.
  rewrite asread_total_pipeline_value, asread_total_closed_won,
    asread_total_closed_lost, asread_view_total.
  assert (Hb : forall P, (0 <= AsRead.sum_where P df
                          <= AsRead.sum_where (fun _ => true) df)%Z)
    by (intros P; apply sum_where_between; auto).
  rewrite (wrap_small _ Hrange).
  rewrite !(fun P => wrap_between _ _ (Hb P) Hrange).
  repeat (split; [apply Hb |]).
  apply Forall_forall. intros row Hrow.
  unfold AsRead.leaderboard_totals in Hrow.
  rewrite asread_equals_column, boolean_index_map, agg_sum_rows in Hrow.
  apply in_map_iff in Hrow. destruct Hrow as [k [<- _]]. cbn [snd].
  rewrite sum_where_filter.
  assert (Hg : (0 <= AsRead.sum_where
      (fun r => (AsRead.stage_is Closed_Won r
                 && AsRead.in_group
                      (fun r0 => AsRead.both (AsRead.Salesperson_ID r0) (AsRead.Region r0))
                      k r)%bool) df
    <= AsRead.sum_where (AsRead.stage_is Closed_Won) df)%Z).
  { apply sum_where_between; [exact Hpos |]. intros r Hr.
    apply andb_true_iff in Hr. tauto. }
  rewrite (wrap_between _ (AsRead.sum_where (fun _ => true) df)); [exact Hg | | exact Hrange].
  pose proof (Hb (AsRead.stage_is Closed_Won)). lia.
Qed.

Lemma nonnegative_int64_totals_bounded_example :
  (forall r, In r AsRead.region_missing -> (0 <= AsRead.Deal_Value_USD r)%Z)
  /\ AsRead.in_int64 (AsRead.sum_where (fun _ => true) AsRead.region_missing)
  /\ (0 <= AsRead.total_pipeline_value AsRead.region_missing
        <= AsRead.sum (map AsRead.Deal_Value_USD AsRead.region_missing))%Z
  /\ (0 <= AsRead.total_closed_won AsRead.region_missing
        <= AsRead.sum (map AsRead.Deal_Value_USD AsRead.region_missing))%Z
  /\ (0 <= AsRead.total_closed_lost AsRead.region_missing
        <= AsRead.sum (map AsRead.Deal_Value_USD AsRead.region_missing))%Z
  /\ Forall (fun row => (0 <= snd row <= AsRead.total_closed_won AsRead.region_missing)%Z)
       (AsRead.leaderboard_totals AsRead.region_missing).
Proof.
  assert (H1 : forall r, In r AsRead.region_missing -> (0 <= AsRead.Deal_Value_USD r)%Z).
  { intros r [<- | [<- | []]]; simpl; lia. }
  assert (H2 : AsRead.in_int64 (AsRead.sum_where (fun _ => true) AsRead.region_missing)).
  { unfold AsRead.in_int64. simpl. lia. }
  split; [exact H1 |]. split; [exact H2 |].
  exact (nonnegative_int64_totals_bounded AsRead.region_missing H1 H2).
Defined.

Lemma both_None (a b : option AsRead.Cell) :
  AsRead.both a b = None <-> a = None \/ b = None.
Proof.
  destruct a, b; simpl; split; try tauto; try discriminate;
    intros [E | E]; discriminate E.
Qed.

Lemma asread_agg_sum_nil {V K : Type} `{Label K} `{AsRead.Number V}
    (key : AsRead.Row V -> option K) (df : AsRead.Frame V) :
  AsRead.agg_sum (AsRead.groupby key df) = [] <-> forall r, In r df -> key r = None.
Proof.
  rewrite <- asread_groupby_nil. unfold AsRead.agg_sum. split.
  - apply map_eq_nil.
  - intros ->. reflexivity.
Qed.

(** X13. A sum roll-up of the stored view has no rows exactly when no
    grouped row has all its key cells: region by category when every row
    of the stage-filtered view lacks a region or a category, lead source
    by stage when every row lacks a source or a stage, category revenue
    and the leaderboard totals when every Closed-Won row lacks a category,
    or a salesperson or a region.  So a view with rows can give an empty
    table. *)
Theorem stored_roll_ups_empty_iff {V : Type} `{AsRead.Number V}
    (df region_filtered_data : AsRead.Frame V) :
  (AsRead.region_category_revenue region_filtered_data = [] <->
     forall r, In r region_filtered_data ->
       AsRead.Region r = None \/ AsRead.Product_Category r = None)
  /\ (AsRead.lead_source_data df = [] <->
        forall r, In r df -> AsRead.Lead_Source r = None \/ AsRead.Deal_Stage r = None)
  /\ (AsRead.category_revenue (AsRead.category_revenue_closed_won df) = [] <->
        forall r, In r df -> AsRead.Deal_Stage r = Some (AsRead.Text Closed_Won) ->
          AsRead.Product_Category r = None)
  /\ (AsRead.leaderboard_totals df = [] <->
        forall r, In r df -> AsRead.Deal_Stage r = Some (AsRead.Text Closed_Won) ->
          AsRead.Salesperson_ID r = None \/ AsRead.Region r = None).
Proof.
  unfold AsRead.region_category_revenue, AsRead.lead_source_data,
    AsRead.category_revenue, AsRead.leaderboard_totals,
    AsRead.category_revenue_closed_won.
  rewrite !asread_agg_sum_nil, asread_equals_column, boolean_index_map.
  split; [split; intros Hx r Hr; apply both_None; auto |].
  split; [split; intros Hx r Hr; apply both_None; auto |].
  split.
  - split.
    + intros Hx r Hr Hw. apply Hx, filter_In. split; [exact Hr |].
      now apply stage_is_true.
    + intros Hx r Hr. apply filter_In in Hr. destruct Hr as [Hr Hw].
      apply Hx; [exact Hr | now apply stage_is_true].
  - split.
    + intros Hx r Hr Hw. apply both_None, Hx, filter_In. split; [exact Hr |].
      now apply stage_is_true.
    + intros Hx r Hr. apply filter_In in Hr. destruct Hr as [Hr Hw].
      apply both_None, Hx; [exact Hr | now apply stage_is_true].
Qed.

(** ** Order of the rows of a stored roll-up *)

Lemma cell_leb_total (a b : AsRead.Cell) :
  AsRead.cell_leb a b = true \/ AsRead.cell_leb b a = true.
Proof.
  destruct a as [s | x], b as [t | y]; simpl; auto.
  - apply String.leb_total.
  - rewrite !Z.leb_le. lia.
Qed.

Lemma cell_leb_trans (a b c : AsRead.Cell) :
  AsRead.cell_leb a b = true -> AsRead.cell_leb b c = true ->
  AsRead.cell_leb a c = true.
Proof.
  destruct a as [s | x], b as [t | y], c as [u | z]; simpl; try congruence.
  - apply string_leb_trans.
  - rewrite !Z.leb_le. lia.
Qed.

Lemma cell_leb_antisym (a b : AsRead.Cell) :
  AsRead.cell_leb a b = true -> AsRead.cell_leb b a = true -> a = b.
Proof.
  destruct a as [s | x], b as [t | y]; simpl; try congruence.
  - intros Hst Hts. f_equal. now apply String.leb_antisym.
  - rewrite !Z.leb_le. intros Hxy Hyx. f_equal. lia.
Qed.

#[export] Instance Cell_LabelOrder : LabelOrder AsRead.Cell := {
  label_leb_total := cell_leb_total;
  label_leb_trans := cell_leb_trans;
  label_leb_antisym := cell_leb_antisym
}.

Lemma asread_agg_sum_keys {V K : Type} `{Label K} `{AsRead.Number V}
    (key : AsRead.Row V -> option K) (df : AsRead.Frame V) :
  map fst (AsRead.agg_sum (AsRead.groupby key df)) = AsRead.group_keys key df.
Proof.
  unfold AsRead.agg_sum, AsRead.groupby. rewrite !map_map. simpl. apply map_id.
Qed.

Lemma asread_group_keys_ascending {V K : Type} `{LabelOrder K}
    (key : AsRead.Row V -> option K) (df : AsRead.Frame V) :
  keys_ascending (AsRead.group_keys key df).
Proof.
  apply sorted_NoDup_ascending; [apply sort_keys_sorted | apply asread_group_keys_NoDup].
Qed.

(** X17. The rows of every sum roll-up of the stored view (and the
    leaderboard's groups before they are sorted by total) stand in strictly
    ascending order of their key columns.  A key column of whole numbers is
    ordered by size, so that 9 comes before 10 and 100, and a key column of
    text is ordered as strings, so that "10" and "100" come before "9"; a
    two-column key is ordered by its first column and, for equal first
    columns, by its second. *)
Theorem stored_roll_up_rows_in_key_order {V : Type} `{AsRead.Number V}
    (df region_filtered_data : AsRead.Frame V) :
  keys_ascending (map fst (AsRead.region_category_revenue region_filtered_data))
  /\ keys_ascending (map fst (AsRead.leaderboard_totals df))
  /\ keys_ascending
       (map fst (AsRead.category_revenue (AsRead.category_revenue_closed_won df)))
  /\ keys_ascending (map fst (AsRead.lead_source_data df))
  /\ (forall a b : Z,
        label_leb (AsRead.Num a) (AsRead.Num b) = true <-> (a <= b)%Z)
  /\ (forall s t : string,
        label_leb (AsRead.Text s) (AsRead.Text t) = String.leb s t)
  /\ (forall a b c d : AsRead.Cell,
        label_leb (a, b) (c, d)
        = if label_eqb a c then label_leb b d else label_leb a c)
  /\ sort_keys [AsRead.Num 10; AsRead.Num 100; AsRead.Num 9]
     = [AsRead.Num 9; AsRead.Num 10; AsRead.Num 100]
  /\ sort_keys [AsRead.Text "9"; AsRead.Text "100"; AsRead.Text "10"]
     = [AsRead.Text "10"; AsRead.Text "100"; AsRead.Text "9"].
Proof.
  unfold AsRead.region_category_revenue, AsRead.leaderboard_totals,
    AsRead.category_revenue, AsRead.lead_source_data.
  rewrite !asread_agg_sum_keys.
  repeat (split; [apply asread_group_keys_ascending |]).
  split; [intros a b; apply Z.leb_le |].
  split; [reflexivity |].
  split; [reflexivity |].
  split; reflexivity.
Qed.
